(** * fontlet: a shallow embedding of [fontlet.go] and its specification

    The Go program is a bubbletea front-end around the external [figlet]
    binary.  This development embeds the parts of [fontlet.go] that the
    specification talks about:

    - the helper functions [truncateString], [runFiglet], [findFigletFonts];
    - the asynchronous task [generatePreviewsCmd];
    - the controller [model.Update].

    Go strings are byte sequences and are modelled by [string] (a list of
    8-bit [ascii] characters).  Go [int] is a 64-bit signed integer and is
    modelled by [Z], with the wrap-around written out where the source does
    arithmetic.  A run-time panic is modelled by [None]. *)

From Stdlib Require Import String Ascii List ZArith Lia Bool.
From Stdlib Require Import Permutation Sorted DecimalString.
From Equations Require Import Equations.
Import ListNotations.

Open Scope string_scope.
Open Scope list_scope.
Open Scope Z_scope.

(** ** The Go standard library, as far as the program uses it *)

(** The line feed, Go's ["\n"]. *)
Definition LF : ascii := ascii_of_nat 10.

(** Package [strings].  Every function works on bytes.  [Split] is Go's
    [strings.Split] for a separator of one byte, which is the only way
    the program calls it.  [TrimSpace] trims the white space of Unicode,
    as Go does.  [ToLower] is Go's function on its ASCII path, the
    letters [A]..[Z]; Go also lowers the letters that lie outside ASCII.
    For the test of the suffix [.flf] this makes no difference, since no
    rune outside ASCII is lowered to a dot, an [f] or an [l]. *)
Module strings.

Fixpoint Split (s : string) (sep : ascii) : list string :=
  match s with
  | EmptyString => [""]
  | String c rest =>
      if Ascii.eqb c sep then "" :: Split rest sep
      else match Split rest sep with
           | [] => [String c ""]
           | first :: others => String c first :: others
           end
  end.

Fixpoint Join (elems : list string) (sep : string) : string :=
  match elems with
  | [] => ""
  | [e] => e
  | e :: rest => e ++ sep ++ Join rest sep
  end.

(** [unicode.IsSpace]: the runes with the property White_Space, from
    U+0009 to U+3000. *)
Definition whiteSpaceRunes : list N :=
  [9; 10; 11; 12; 13; 32; 133; 160; 5760;
   8192; 8193; 8194; 8195; 8196; 8197; 8198; 8199; 8200; 8201; 8202;
   8232; 8233; 8239; 8287; 12288]%N.

(** The UTF-8 encoding of a rune below U+10000. *)
Definition encodeRune (r : N) : string :=
  if (r <? 128)%N then String (ascii_of_N r) ""
  else if (r <? 2048)%N then
    String (ascii_of_N (192 + r / 64))
      (String (ascii_of_N (128 + r mod 64)) "")
  else
    String (ascii_of_N (224 + r / 4096))
      (String (ascii_of_N (128 + (r / 64) mod 64))
         (String (ascii_of_N (128 + r mod 64)) "")).

(** [bytes] is the encoding of one white space rune.  Go decodes the
    text rune by rune; a rune is white space exactly when its bytes are
    one of these encodings (a byte that is not part of a valid encoding
    decodes to U+FFFD, which is not white space). *)
Definition isSpace (bytes : string) : bool :=
  existsb (String.eqb bytes) (map encodeRune whiteSpaceRunes).

Fixpoint reverse (s : string) : string :=
  match s with
  | EmptyString => ""
  | String c rest => reverse rest ++ String c ""
  end.

(** Drop the runes accepted by [chunk] from the start of [s]; they are
    one, two or three bytes long. *)
Fixpoint trimStart (chunk : string -> bool) (s : string) : string :=
  match s with
  | EmptyString => ""
  | String a r1 =>
      if chunk (String a "") then trimStart chunk r1
      else
        match r1 with
        | EmptyString => s
        | String b r2 =>
            if chunk (String a (String b "")) then trimStart chunk r2
            else
              match r2 with
              | EmptyString => s
              | String c r3 =>
                  if chunk (String a (String b (String c "")))
                  then trimStart chunk r3
                  else s
              end
        end
  end.

(** [TrimLeftFunc(s, unicode.IsSpace)] reads runes forwards. *)
Definition TrimLeft (s : string) : string := trimStart isSpace s.

(** [TrimRightFunc(s, unicode.IsSpace)] reads runes backwards, from the
    end of [s]. *)
Definition TrimRight (s : string) : string :=
  reverse (trimStart (fun bytes => isSpace (reverse bytes)) (reverse s)).

(** [strings.TrimSpace]: its path for ASCII text returns what
    [TrimFunc(s, unicode.IsSpace)] returns. *)
Definition TrimSpace (s : string) : string := TrimRight (TrimLeft s).

Definition lowerByte (c : ascii) : ascii :=
  let n := nat_of_ascii c in
  if ((65 <=? n) && (n <=? 90))%nat then ascii_of_nat (n + 32) else c.

Fixpoint ToLower (s : string) : string :=
  match s with
  | EmptyString => ""
  | String c rest => String (lowerByte c) (ToLower rest)
  end.

Definition HasSuffix (s suffix : string) : bool :=
  (String.length suffix <=? String.length s)%nat
  && String.eqb
       (substring (String.length s - String.length suffix)
                  (String.length suffix) s)
       suffix.

Definition TrimSuffix (s suffix : string) : string :=
  if HasSuffix s suffix
  then substring 0 (String.length s - String.length suffix) s
  else s.

End strings.

(** ** Slices *)

(** [l[:hi]]: panics unless [0 <= hi <= len(l)]. *)
Definition sliceTo {A} (l : list A) (hi : Z) : option (list A) :=
  if (hi <? 0) || (Z.of_nat (List.length l) <? hi) then None
  else Some (firstn (Z.to_nat hi) l).

(** ** Configuration *)

Definition previewLines : Z := 11.

(** ** [truncateString] *)

(** The loop
    [for len(lines) > 0 && strings.TrimSpace(lines[len(lines)-1]) == ""]
    with body [lines = lines[:len(lines)-1]]. *)
Equations? truncateString_loop (lines : list string) : list string
  by wf (List.length lines) lt :=
  truncateString_loop [] := [];
  truncateString_loop (l :: ls)
    with String.eqb (strings.TrimSpace (last (l :: ls) "")) "" => {
    | true := truncateString_loop (removelast (l :: ls));
    | false := l :: ls }.
Proof.
  clear. revert l. induction ls as [|x xs IH]; intros l; simpl in *.
  - lia.
  - specialize (IH x). lia.
Qed.

Definition truncateString (s : string) (maxLines : Z) : option string :=
  let lines := strings.Split s LF in
  match
    (if Z.of_nat (List.length lines) >? maxLines
     then sliceTo lines maxLines else Some lines)
  with
  | None => None
  | Some lines => Some (strings.Join (truncateString_loop lines) (String LF ""))
  end.

(** ** The specification's reading of truncation

    "Keep at most the first [maxLines] lines, then drop trailing lines that
    are empty or whitespace-only from the kept prefix."  [truncate_spec]
    follows these words; it is compared with [truncateString] below. *)

Definition isBlank (line : string) : bool :=
  String.eqb (strings.TrimSpace line) "".

Fixpoint dropTrailingBlank (lines : list string) : list string :=
  match lines with
  | [] => []
  | l :: ls =>
      match dropTrailingBlank ls with
      | [] => if isBlank l then [] else [l]
      | kept => l :: kept
      end
  end.

Definition truncate_spec (s : string) (maxLines : nat) : string :=
  strings.Join
    (dropTrailingBlank (firstn maxLines (strings.Split s LF)))
    (String LF "").

(** The number of lines of a text, as [strings.Split] counts them. *)
Definition lineCount (s : string) : nat :=
  List.length (strings.Split s LF).

(** [hasByte c s]: the byte [c] occurs in [s]. *)
Fixpoint hasByte (c : ascii) (s : string) : bool :=
  match s with
  | EmptyString => false
  | String d rest => Ascii.eqb d c || hasByte c rest
  end.

(** Package [path/filepath], for a system whose separator is [/]. *)
Module filepath.

Definition isPathSeparator (c : ascii) : bool := Ascii.eqb c "/".

Fixpoint stripTrailingSlashes (path : string) : string :=
  match path with
  | EmptyString => ""
  | String c rest =>
      match stripTrailingSlashes rest with
      | EmptyString => if isPathSeparator c then "" else String c ""
      | kept => String c kept
      end
  end.

(** What follows the last separator of [path]; [path] when it has none. *)
Fixpoint lastElement (path : string) : string :=
  match path with
  | EmptyString => ""
  | String c rest =>
      if hasByte "/" rest then lastElement rest
      else if isPathSeparator c then rest else path
  end.

Definition Base (path : string) : string :=
  if String.eqb path "" then "."
  else
    let path := lastElement (stripTrailingSlashes path) in
    if String.eqb path "" then "/" else path.

(** The suffix that starts at the last dot of the last element of
    [path]; empty when that element has no dot. *)
Fixpoint Ext (path : string) : string :=
  match path with
  | EmptyString => ""
  | String c rest =>
      if hasByte "/" rest || hasByte "." rest then Ext rest
      else if Ascii.eqb c "." then path else ""
  end.

End filepath.

(** [fmt.Sprintf("%d", n)]. *)
Definition Sprintf_d (n : Z) : string := NilZero.string_of_int (Z.to_int n).

(** Arithmetic of Go's [int]: 64 bits, two's complement, wrapping. *)
Definition wrap_int (z : Z) : Z := (z + 2 ^ 63) mod 2 ^ 64 - 2 ^ 63.
Definition int_sub (a b : Z) : Z := wrap_int (a - b).

(** [time.Duration] counts nanoseconds. *)
Definition time_Second : Z := 1000000000.

(** ** Errors and results *)

(** An [error], by its message [err.Error()]. *)
Definition error := string.

Inductive result (A : Type) : Type :=
| Ok (a : A)
| Err (e : error).
Arguments Ok {A} a.
Arguments Err {A} e.

(** ** Data model *)

Inductive appState : Type :=
| stateInitialLoading
| stateInputText
| stateLoadingPreviews
| stateSelectFontWithPreview
| stateGeneratingFullOutput
| stateOutputChoice
| stateSaveFileNameInput
| stateDisplayFiglet
| stateShowStatusMessage
| stateError.

Definition appState_eqb (a b : appState) : bool :=
  match a, b with
  | stateInitialLoading, stateInitialLoading
  | stateInputText, stateInputText
  | stateLoadingPreviews, stateLoadingPreviews
  | stateSelectFontWithPreview, stateSelectFontWithPreview
  | stateGeneratingFullOutput, stateGeneratingFullOutput
  | stateOutputChoice, stateOutputChoice
  | stateSaveFileNameInput, stateSaveFileNameInput
  | stateDisplayFiglet, stateDisplayFiglet
  | stateShowStatusMessage, stateShowStatusMessage
  | stateError, stateError => true
  | _, _ => false
  end.

Record fontMetadata : Type := {
  Name : string;
  Path : string;
  PreviewRender : string
}.

(** ** The platform: processes, files, sorting *)

(** [exec.Command(name, args...)]. *)
Record Cmdline : Type := Command {
  cmd_name : string;
  cmd_args : list string
}.

(** One call of the function that [filepath.WalkDir] is given:
    the path, [d.Name()], [d.IsDir()] and the error argument. *)
Record Visit : Type := {
  visit_path : string;
  visit_name : string;
  visit_isDir : bool;
  visit_err : option error
}.

Class Platform : Type := {
  (** [cmd.Output()].  The answer of an external command may depend on
      the commands that ran before it; they are the first argument. *)
  exec_Output : list Cmdline -> Cmdline -> result string;
  (** [os.Stat(p)] succeeds and [IsDir()] holds. *)
  os_isDir : string -> bool;
  filepath_Join : string -> string -> string;
  (** The calls [filepath.WalkDir(root, fn)] makes to [fn], in order, as
      long as [fn] returns [nil]. *)
  filepath_WalkDir : string -> list Visit;
  (** [sort.Slice], given [less] on elements. *)
  sort_Slice :
    (fontMetadata -> fontMetadata -> bool) ->
    list fontMetadata -> list fontMetadata;
  (** [os.WriteFile(name, data, 0644)]. *)
  os_WriteFile : string -> string -> option error
}.

(** ** Tasks: code that runs external commands

    A task reads and extends the log of the commands run so far, and may
    panic. *)

Definition Log : Type := list Cmdline.

Definition Task (A : Type) : Type := Log -> option (A * Log).

Definition ret {A} (a : A) : Task A := fun log => Some (a, log).

Definition bind {A B} (t : Task A) (k : A -> Task B) : Task B :=
  fun log =>
    match t log with
    | None => None
    | Some (a, log') => k a log'
    end.

Definition panics {A} : Task A := fun _ => None.

Definition orPanic {A} (o : option A) : Task A :=
  match o with
  | Some a => ret a
  | None => panics
  end.

Notation "x <- t ;; k" := (bind t (fun x => k))
  (at level 61, t at next level, right associativity).

Definition Output `{Platform} (c : Cmdline) : Task (result string) :=
  fun log => Some (exec_Output log c, log ++ [c]).

(** ** [runFiglet] *)

Definition runFiglet `{Platform}
    (figletCmdPath fontPath text : string) (width : Z)
  : Task (result string) :=
  r <- Output (Command figletCmdPath
                 ["-f"; fontPath; "-w"; Sprintf_d width; text]) ;;
  match r with
  | Ok output => ret (Ok output)
  | Err _ =>
      r <- Output (Command figletCmdPath ["-f"; fontPath; text]) ;;
      match r with
      | Ok output => ret (Ok output)
      | Err err =>
          ret (Err ("figlet failed (path: " ++ fontPath
                    ++ ", text: " ++ text
                    ++ ", width: " ++ Sprintf_d width ++ "): " ++ err)%string)
      end
  end.

(** ** [findFigletFonts] *)

Definition commonDirs : list string :=
  ["/usr/share/figlet/fonts"; "/usr/share/figlet";
   "/usr/local/share/figlet/fonts"; "/usr/local/share/figlet";
   "/opt/homebrew/share/figlet/fonts"; "/opt/homebrew/share/figlet"].

(** The first part of [findFigletFonts] (lines 211-231): the font
    directory, [""] when none is found. *)
Definition findFontDir `{Platform} : Task string :=
  r <- Output (Command "figlet" ["-I"; "2"]) ;;
  let fontDir :=
    match r with
    | Ok output =>
        let fontDir := strings.TrimSpace output in
        let potentialFontDir := filepath_Join fontDir "fonts" in
        if os_isDir potentialFontDir then potentialFontDir
        else if negb (os_isDir fontDir) then "" else fontDir
    | Err _ => ""
    end in
  ret (if String.eqb fontDir ""
       then match find os_isDir commonDirs with
            | Some dir => dir
            | None => ""
            end
       else fontDir).

(** The test [!d.IsDir() && strings.HasSuffix(strings.ToLower(d.Name()),
    ".flf")] of the function literal given to [filepath.WalkDir]. *)
Definition isFontFile (v : Visit) : bool :=
  negb (visit_isDir v)
  && strings.HasSuffix (strings.ToLower (visit_name v)) ".flf".

(** The function literal given to [filepath.WalkDir]; the captured
    [fontPaths] is passed along. *)
Definition walkFn (fontPaths : list string) (v : Visit)
  : list string * option error :=
  match visit_err v with
  | Some err => (fontPaths, Some err)
  | None =>
      if isFontFile v
      then (fontPaths ++ [visit_path v], None)
      else (fontPaths, None)
  end.

(** [filepath.WalkDir] stops at the first error [fn] returns. *)
Fixpoint WalkDir (visits : list Visit) (fontPaths : list string)
  : list string * option error :=
  match visits with
  | [] => (fontPaths, None)
  | v :: rest =>
      match walkFn fontPaths v with
      | (fontPaths, Some err) => (fontPaths, Some err)
      | (fontPaths, None) => WalkDir rest fontPaths
      end
  end.

Definition fontOfPath (p : string) : fontMetadata :=
  let nameWithExt := filepath.Base p in
  let name := strings.TrimSuffix nameWithExt (filepath.Ext nameWithExt) in
  {| Name := name; Path := p; PreviewRender := "" |}.

Definition lessByName (a b : fontMetadata) : bool :=
  String.ltb (Name a) (Name b).

(** The second part of [findFigletFonts] (lines 234-251), given the
    calls [filepath.WalkDir(fontDir, ...)] makes. *)
Definition fontsOfWalk `{Platform} (fontDir : string) (visits : list Visit)
  : result (list fontMetadata) :=
  match WalkDir visits [] with
  | (_, Some err) =>
      Err ("error walking font directory " ++ fontDir ++ ": " ++ err)%string
  | (fontPaths, None) =>
      if (List.length fontPaths =? 0)%nat
      then Err ("no .flf font files found in " ++ fontDir
                ++ " or subdirectories")%string
      else Ok (sort_Slice lessByName (map fontOfPath fontPaths))
  end.

Definition findFigletFonts `{Platform} : Task (result (list fontMetadata)) :=
  fontDir <- findFontDir ;;
  if String.eqb fontDir ""
  then ret (Err "could not find figlet font directory")
  else ret (fontsOfWalk fontDir (filepath_WalkDir fontDir)).

(** ** Keys *)

(** [tea.KeyType], the keys that have a name of their own, and typed
    text ([KeyRunes]). *)
Inductive KeyType : Type :=
| KeyRunes | KeyEnter | KeyEsc | KeyCtrlC | KeyTab | KeySpace | KeyBackspace
| KeyUp | KeyDown | KeyLeft | KeyRight | KeyHome | KeyEnd
| KeyPgUp | KeyPgDown | KeyDelete.

Definition KeyType_eqb (a b : KeyType) : bool :=
  match a, b with
  | KeyRunes, KeyRunes | KeyEnter, KeyEnter | KeyEsc, KeyEsc
  | KeyCtrlC, KeyCtrlC | KeyTab, KeyTab | KeySpace, KeySpace
  | KeyBackspace, KeyBackspace | KeyUp, KeyUp | KeyDown, KeyDown
  | KeyLeft, KeyLeft | KeyRight, KeyRight | KeyHome, KeyHome
  | KeyEnd, KeyEnd | KeyPgUp, KeyPgUp | KeyPgDown, KeyPgDown
  | KeyDelete, KeyDelete => true
  | _, _ => false
  end.

Record KeyMsg : Type := {
  Type_ : KeyType;
  Runes : string;
  Alt : bool;
  Paste : bool
}.

Definition keyNames (t : KeyType) : string :=
  match t with
  | KeyRunes => "runes"
  | KeyEnter => "enter"
  | KeyEsc => "esc"
  | KeyCtrlC => "ctrl+c"
  | KeyTab => "tab"
  | KeySpace => " "
  | KeyBackspace => "backspace"
  | KeyUp => "up"
  | KeyDown => "down"
  | KeyLeft => "left"
  | KeyRight => "right"
  | KeyHome => "home"
  | KeyEnd => "end"
  | KeyPgUp => "pgup"
  | KeyPgDown => "pgdown"
  | KeyDelete => "delete"
  end.

(** [Key.String()]. *)
Definition KeyMsg_String (k : KeyMsg) : string :=
  ((if Alt k then "alt+" else "")
   ++ (if KeyType_eqb (Type_ k) KeyRunes
       then (if Paste k then "[" else "") ++ Runes k
            ++ (if Paste k then "]" else "")
       else keyNames (Type_ k)))%string.

(** [key.Matches(msg, key.NewBinding(key.WithKeys(keys...), ...))]. *)
Definition key_Matches (msg : KeyMsg) (keys : list string) : bool :=
  existsb (String.eqb (KeyMsg_String msg)) keys.

(** ** Messages *)

Inductive Msg : Type :=
| WindowSizeMsg (Width Height : Z)
| spinner_TickMsg (ID tag : Z)
| initialResourcesLoadedMsg (fonts : list fontMetadata)
| previewsGeneratedMsg (fontsWithPreviews : list fontMetadata)
| fullFigletRenderedMsg (output : string)
| fileSavedMsg (path : string)
| errorMsg (err : error)
| statusTimeoutMsg
| tea_KeyMsg (msg : KeyMsg)
(** any other message, such as a mouse event: [Update] has no case for it *)
| otherMsg.

(** A [tea.Cmd] that comes out of a widget of the library: [nil],
    [tea.Quit] (the list returns it for its quit keys), or another
    command of the library. *)
Inductive LibCmd (other : Type) : Type :=
| lib_nil
| lib_Quit
| lib_other (c : other).
Arguments lib_nil {other}.
Arguments lib_Quit {other}.
Arguments lib_other {other} c.

(** ** The widgets of the bubbles library

    The program owns a text input, a list, a viewport and a spinner.  They
    are library objects; the controller only calls their methods. *)
Class Bubbles : Type := {
  textinput_Model : Type;
  list_Model : Type;
  viewport_Model : Type;
  spinner_Model : Type;
  (** the commands of the library other than [nil] and [tea.Quit] *)
  widget_Cmd : Type;

  textinput_Value : textinput_Model -> string;
  textinput_SetValue : textinput_Model -> string -> textinput_Model;
  textinput_Focus : textinput_Model -> textinput_Model;
  textinput_Blur : textinput_Model -> textinput_Model;
  textinput_SetWidth : textinput_Model -> Z -> textinput_Model;
  textinput_SetPlaceholder : textinput_Model -> string -> textinput_Model;
  textinput_PromptWidth : textinput_Model -> Z;
  textinput_Update : textinput_Model -> KeyMsg ->
    textinput_Model * LibCmd widget_Cmd;

  (** [list.New(items, delegate, width, height)] followed by the settings
      of title, styles, status bar and filtering *)
  list_New : list fontMetadata -> Z -> Z -> list_Model;
  list_ItemsNotNil : list_Model -> bool;
  list_SetSize : list_Model -> Z -> Z -> list_Model;
  list_SelectedItem : list_Model -> option fontMetadata;
  list_Update : list_Model -> KeyMsg -> list_Model * LibCmd widget_Cmd;

  (** [viewport.New(width, height)], styled, with its content set and
      scrolled to the top *)
  viewport_New : Z -> Z -> string -> viewport_Model;
  viewport_SetWidth : viewport_Model -> Z -> viewport_Model;
  viewport_SetHeight : viewport_Model -> Z -> viewport_Model;
  viewport_Update : viewport_Model -> KeyMsg ->
    viewport_Model * LibCmd widget_Cmd;

  spinner_Update : spinner_Model -> Z -> Z -> spinner_Model * LibCmd widget_Cmd;

  (** lipgloss: [docStyle.GetHorizontalFrameSize()],
      [lipgloss.Height(m.headerView())],
      [lipgloss.Height(m.footerView())], [successStyle.Render] *)
  docStyle_HorizontalFrameSize : Z;
  headerView_Height : Z;
  footerView_Height : appState -> spinner_Model -> Z;
  successStyle_Render : string -> string
}.

(** ** The session *)

Record model `{Bubbles} : Type := {
  state : appState;
  textInput : textinput_Model;
  fontList : list_Model;
  figletViewport : viewport_Model;
  spinner : spinner_Model;
  fonts : list fontMetadata;
  fullFigletOutput : string;
  inputText : string;
  selectedFontMeta : fontMetadata;
  termWidth : Z;
  termHeight : Z;
  errorMessage : string;
  statusMessage : string;
  figletCmdPath : string
}.

(** Assignments to the fields of a [model]. *)
Section Assign.
Context `{Bubbles}.

Definition set_state (m : model) (v : appState) : model :=
  Build_model _ v (textInput m) (fontList m) (figletViewport m) (spinner m)
    (fonts m) (fullFigletOutput m) (inputText m) (selectedFontMeta m)
    (termWidth m) (termHeight m) (errorMessage m) (statusMessage m)
    (figletCmdPath m).
Definition set_textInput (m : model) (v : textinput_Model) : model :=
  Build_model _ (state m) v (fontList m) (figletViewport m) (spinner m)
    (fonts m) (fullFigletOutput m) (inputText m) (selectedFontMeta m)
    (termWidth m) (termHeight m) (errorMessage m) (statusMessage m)
    (figletCmdPath m).
Definition set_fontList (m : model) (v : list_Model) : model :=
  Build_model _ (state m) (textInput m) v (figletViewport m) (spinner m)
    (fonts m) (fullFigletOutput m) (inputText m) (selectedFontMeta m)
    (termWidth m) (termHeight m) (errorMessage m) (statusMessage m)
    (figletCmdPath m).
Definition set_figletViewport (m : model) (v : viewport_Model) : model :=
  Build_model _ (state m) (textInput m) (fontList m) v (spinner m)
    (fonts m) (fullFigletOutput m) (inputText m) (selectedFontMeta m)
    (termWidth m) (termHeight m) (errorMessage m) (statusMessage m)
    (figletCmdPath m).
Definition set_spinner (m : model) (v : spinner_Model) : model :=
  Build_model _ (state m) (textInput m) (fontList m) (figletViewport m) v
    (fonts m) (fullFigletOutput m) (inputText m) (selectedFontMeta m)
    (termWidth m) (termHeight m) (errorMessage m) (statusMessage m)
    (figletCmdPath m).
Definition set_fonts (m : model) (v : list fontMetadata) : model :=
  Build_model _ (state m) (textInput m) (fontList m) (figletViewport m)
    (spinner m) v (fullFigletOutput m) (inputText m) (selectedFontMeta m)
    (termWidth m) (termHeight m) (errorMessage m) (statusMessage m)
    (figletCmdPath m).
Definition set_fullFigletOutput (m : model) (v : string) : model :=
  Build_model _ (state m) (textInput m) (fontList m) (figletViewport m)
    (spinner m) (fonts m) v (inputText m) (selectedFontMeta m)
    (termWidth m) (termHeight m) (errorMessage m) (statusMessage m)
    (figletCmdPath m).
Definition set_inputText (m : model) (v : string) : model :=
  Build_model _ (state m) (textInput m) (fontList m) (figletViewport m)
    (spinner m) (fonts m) (fullFigletOutput m) v (selectedFontMeta m)
    (termWidth m) (termHeight m) (errorMessage m) (statusMessage m)
    (figletCmdPath m).
Definition set_selectedFontMeta (m : model) (v : fontMetadata) : model :=
  Build_model _ (state m) (textInput m) (fontList m) (figletViewport m)
    (spinner m) (fonts m) (fullFigletOutput m) (inputText m) v
    (termWidth m) (termHeight m) (errorMessage m) (statusMessage m)
    (figletCmdPath m).
Definition set_termWidth (m : model) (v : Z) : model :=
  Build_model _ (state m) (textInput m) (fontList m) (figletViewport m)
    (spinner m) (fonts m) (fullFigletOutput m) (inputText m)
    (selectedFontMeta m) v (termHeight m) (errorMessage m)
    (statusMessage m) (figletCmdPath m).
Definition set_termHeight (m : model) (v : Z) : model :=
  Build_model _ (state m) (textInput m) (fontList m) (figletViewport m)
    (spinner m) (fonts m) (fullFigletOutput m) (inputText m)
    (selectedFontMeta m) (termWidth m) v (errorMessage m)
    (statusMessage m) (figletCmdPath m).
Definition set_errorMessage (m : model) (v : string) : model :=
  Build_model _ (state m) (textInput m) (fontList m) (figletViewport m)
    (spinner m) (fonts m) (fullFigletOutput m) (inputText m)
    (selectedFontMeta m) (termWidth m) (termHeight m) v
    (statusMessage m) (figletCmdPath m).
Definition set_statusMessage (m : model) (v : string) : model :=
  Build_model _ (state m) (textInput m) (fontList m) (figletViewport m)
    (spinner m) (fonts m) (fullFigletOutput m) (inputText m)
    (selectedFontMeta m) (termWidth m) (termHeight m) (errorMessage m)
    v (figletCmdPath m).
End Assign.

(** ** Commands

    A [tea.Cmd] is a function the runtime runs off the event loop.  The
    commands the controller returns are kept as data; the ones the
    program defines carry the receiver [m] they were made from, which Go
    copies when the method value is taken. *)
#[warnings="-register-all"]
Inductive Cmd `{Bubbles} : Type :=
| Cmd_nil
| tea_Quit
| tea_Batch (cmds : list Cmd)
| tea_Tick (d : Z) (msg : Msg)
| spinner_Tick (s : spinner_Model)
| widget (c : widget_Cmd)
| cmd_generatePreviews (m : model)
| cmd_renderFullFiglet (m : model) (fontPath text : string)
| cmd_saveToFile (m : model) (filename content : string).

(** The command of a widget, as a [tea.Cmd] of the program. *)
Definition tea_Cmd_of `{Bubbles} (c : LibCmd widget_Cmd) : Cmd :=
  match c with
  | lib_nil => Cmd_nil
  | lib_Quit => tea_Quit
  | lib_other c => widget c
  end.

(** The runtime quits when it runs [tea.Quit], alone or in a batch. *)
Fixpoint asksToQuit `{Bubbles} (c : Cmd) : bool :=
  match c with
  | tea_Quit => true
  | tea_Batch cmds => existsb asksToQuit cmds
  | _ => false
  end.

(** ** The tasks of the program *)

Definition loadInitialFontsCmd `{Platform} : Task Msg :=
  r <- findFigletFonts ;;
  match r with
  | Err err => ret (errorMsg err)
  | Ok fonts => ret (initialResourcesLoadedMsg fonts)
  end.

(** The body of the loop [for i, font := range m.fonts] of
    [generatePreviewsCmd]: the entry stored at [fontsWithPreviews[i]]. *)
Definition previewOf `{Platform}
    (figletCmdPath inputText : string) (previewRenderWidth : Z)
    (font : fontMetadata) : Task fontMetadata :=
  r <- runFiglet figletCmdPath (Path font) inputText previewRenderWidth ;;
  match r with
  | Err err =>
      ret {| Name := Name font; Path := Path font;
             PreviewRender := ("Error rendering: " ++ err)%string |}
  | Ok output =>
      preview <- orPanic (truncateString output previewLines) ;;
      ret {| Name := Name font; Path := Path font; PreviewRender := preview |}
  end.

Fixpoint forEach {A B} (f : A -> Task B) (l : list A) : Task (list B) :=
  match l with
  | [] => ret []
  | a :: rest =>
      b <- f a ;;
      bs <- forEach f rest ;;
      ret (b :: bs)
  end.

Definition generatePreviewsCmd `{Platform} `{Bubbles} (m : model) : Task Msg :=
  let previewRenderWidth := int_sub (termWidth m) 20 in
  let previewRenderWidth :=
    if previewRenderWidth <? 20 then 20 else previewRenderWidth in
  fontsWithPreviews <-
    forEach (previewOf (figletCmdPath m) (inputText m) previewRenderWidth)
            (fonts m) ;;
  ret (previewsGeneratedMsg fontsWithPreviews).

Definition renderFullFigletCmd `{Platform} `{Bubbles}
    (m : model) (fontPath text : string) : Task Msg :=
  let renderWidth :=
    int_sub (int_sub (termWidth m) docStyle_HorizontalFrameSize) 4 in
  let renderWidth := if renderWidth <? 20 then 20 else renderWidth in
  r <- runFiglet (figletCmdPath m) fontPath text renderWidth ;;
  match r with
  | Err err =>
      ret (errorMsg ("failed to run figlet for full output: " ++ err)%string)
  | Ok output => ret (fullFigletRenderedMsg output)
  end.

Definition saveToFileCmd `{Platform} (filename content : string) : Task Msg :=
  match os_WriteFile filename content with
  | Some err =>
      ret (errorMsg
             ("failed to save file '" ++ filename ++ "': " ++ err)%string)
  | None => ret (fileSavedMsg filename)
  end.

(** What the runtime runs for a command of the program. *)
Definition taskOf `{Platform} `{Bubbles} (c : Cmd) : option (Task Msg) :=
  match c with
  | cmd_generatePreviews m => Some (generatePreviewsCmd m)
  | cmd_renderFullFiglet m fontPath text =>
      Some (renderFullFigletCmd m fontPath text)
  | cmd_saveToFile _ filename content => Some (saveToFileCmd filename content)
  | _ => None
  end.

(** ** The controller: [model.Update] *)

(** [m.termHeight - lipgloss.Height(m.headerView())
     - lipgloss.Height(m.footerView()) - 2]. *)
Definition paneHeight `{Bubbles} (m : model) : Z :=
  int_sub
    (int_sub (int_sub (termHeight m) headerView_Height)
             (footerView_Height (state m) (spinner m)))
    2.

Definition isSpinning (s : appState) : bool :=
  appState_eqb s stateInitialLoading
  || appState_eqb s stateLoadingPreviews
  || appState_eqb s stateGeneratingFullOutput.

(** The [switch m.state] of the [tea.KeyMsg] case, after the global
    quit. *)
Definition UpdateKey `{Bubbles} (m : model) (msg : KeyMsg) : model * Cmd :=
  match state m with
  | stateInputText =>
      if KeyType_eqb (Type_ msg) KeyEnter then
        let m := set_inputText m
                   (strings.TrimSpace (textinput_Value (textInput m))) in
        if negb (String.eqb (inputText m) "") then
          let m := set_state m stateLoadingPreviews in
          let m := set_textInput m (textinput_Blur (textInput m)) in
          (m, tea_Batch [spinner_Tick (spinner m); cmd_generatePreviews m])
        else (m, tea_Batch [])
      else
        let (ti, cmd) := textinput_Update (textInput m) msg in
        (set_textInput m ti, tea_Batch [tea_Cmd_of cmd])
  | stateSelectFontWithPreview =>
      if key_Matches msg ["esc"] then
        let m := set_state m stateInputText in
        let m := set_textInput m
                   (textinput_SetValue (textInput m) (inputText m)) in
        let m := set_textInput m (textinput_Focus (textInput m)) in
        (m, Cmd_nil)
      else
        let (m, cmds) :=
          if KeyType_eqb (Type_ msg) KeyEnter then
            match list_SelectedItem (fontList m) with
            | Some selected =>
                let m := set_selectedFontMeta m selected in
                let m := set_state m stateGeneratingFullOutput in
                (m, [spinner_Tick (spinner m);
                     cmd_renderFullFiglet m (Path (selectedFontMeta m))
                                          (inputText m)])
            | None => (m, [])
            end
          else (m, []) in
        let (fl, cmd) := list_Update (fontList m) msg in
        (set_fontList m fl, tea_Batch (cmds ++ [tea_Cmd_of cmd]))
  | stateOutputChoice =>
      let choice := strings.ToLower (KeyMsg_String msg) in
      if String.eqb choice "t" then
        let m := set_figletViewport m
                   (viewport_New
                      (int_sub (termWidth m) docStyle_HorizontalFrameSize)
                      (paneHeight m) (fullFigletOutput m)) in
        let m := set_state m stateDisplayFiglet in
        let m := set_statusMessage m "" in
        (m, tea_Batch [])
      else if String.eqb choice "f" then
        let m := set_textInput m
                   (textinput_SetPlaceholder (textInput m)
                      "Enter filename (e.g., output.txt)") in
        let m := set_textInput m (textinput_SetValue (textInput m) "") in
        let m := set_textInput m (textinput_Focus (textInput m)) in
        let m := set_state m stateSaveFileNameInput in
        let m := set_statusMessage m "" in
        (m, tea_Batch [])
      else if String.eqb choice "esc" then
        let m := set_state m stateSelectFontWithPreview in
        let m := set_statusMessage m "" in
        (m, tea_Batch [])
      else (m, tea_Batch [])
  | stateSaveFileNameInput =>
      if KeyType_eqb (Type_ msg) KeyEnter then
        let filename := strings.TrimSpace (textinput_Value (textInput m)) in
        if negb (String.eqb filename "") then
          let m := set_textInput m (textinput_Blur (textInput m)) in
          (m, tea_Batch [cmd_saveToFile m filename (fullFigletOutput m)])
        else (m, tea_Batch [])
      else if KeyType_eqb (Type_ msg) KeyEsc then
        let m := set_state m stateOutputChoice in
        let m := set_statusMessage m
                   "Output to (t)erminal or save to (f)ile?" in
        let m := set_textInput m (textinput_Blur (textInput m)) in
        (m, tea_Batch [])
      else
        let (ti, cmd) := textinput_Update (textInput m) msg in
        (set_textInput m ti, tea_Batch [tea_Cmd_of cmd])
  | stateDisplayFiglet =>
      let m :=
        if key_Matches msg ["esc"; "q"]
        then set_state m stateSelectFontWithPreview else m in
      let (vp, cmd) := viewport_Update (figletViewport m) msg in
      (set_figletViewport m vp, tea_Batch [tea_Cmd_of cmd])
  | stateShowStatusMessage =>
      if key_Matches msg ["enter"; "esc"] then
        let m := set_statusMessage m "" in
        let m := set_state m stateSelectFontWithPreview in
        (m, tea_Batch [])
      else (m, tea_Batch [])
  | stateError =>
      if key_Matches msg ["q"; "esc"; "enter"] then (m, tea_Quit)
      else (m, tea_Batch [])
  | stateInitialLoading | stateLoadingPreviews | stateGeneratingFullOutput =>
      (m, tea_Batch [])
  end.

Definition Update `{Bubbles} (m : model) (msg : Msg) : model * Cmd :=
  match msg with
  | WindowSizeMsg Width Height =>
      let m := set_termWidth m Width in
      let m := set_termHeight m Height in
      let h := docStyle_HorizontalFrameSize in
      let m := set_textInput m
                 (textinput_SetWidth (textInput m)
                    (int_sub
                       (int_sub (int_sub Width h)
                                (textinput_PromptWidth (textInput m)))
                       1)) in
      let listHeight := paneHeight m in
      let m :=
        if list_ItemsNotNil (fontList m)
        then set_fontList m
               (list_SetSize (fontList m) (int_sub Width h) listHeight)
        else m in
      let m := set_figletViewport m
                 (viewport_SetWidth (figletViewport m) (int_sub Width h)) in
      let m := set_figletViewport m
                 (viewport_SetHeight (figletViewport m) listHeight) in
      (m, tea_Batch [])
  | spinner_TickMsg ID tag =>
      if isSpinning (state m) then
        let (sp, cmd) := spinner_Update (spinner m) ID tag in
        (set_spinner m sp, tea_Batch [tea_Cmd_of cmd])
      else (m, tea_Batch [])
  | initialResourcesLoadedMsg fonts =>
      let m := set_fonts m fonts in
      let m := set_state m stateInputText in
      let m := set_textInput m (textinput_Focus (textInput m)) in
      (m, tea_Batch [])
  | previewsGeneratedMsg fontsWithPreviews =>
      let m := set_fonts m fontsWithPreviews in
      let items := fonts m in
      let listHeight := paneHeight m in
      let newList :=
        list_New items
                 (int_sub (termWidth m) docStyle_HorizontalFrameSize)
                 listHeight in
      let m := set_fontList m newList in
      let m := set_state m stateSelectFontWithPreview in
      (m, tea_Batch [])
  | fullFigletRenderedMsg output =>
      let m := set_fullFigletOutput m output in
      let m := set_state m stateOutputChoice in
      let m := set_statusMessage m
                 "Output to (t)erminal or save to (f)ile?" in
      (m, tea_Batch [])
  | fileSavedMsg path =>
      let m := set_statusMessage m
                 (successStyle_Render ("Saved to " ++ path ++ "!")%string) in
      let m := set_state m stateShowStatusMessage in
      (m, tea_Batch [tea_Tick (wrap_int (time_Second * 2)) statusTimeoutMsg])
  | statusTimeoutMsg =>
      let m := set_statusMessage m "" in
      let m := set_state m stateSelectFontWithPreview in
      (m, tea_Batch [])
  | errorMsg err =>
      let m := set_errorMessage m err in
      let m := set_state m stateError in
      (m, Cmd_nil)
  | tea_KeyMsg msg =>
      if key_Matches msg ["ctrl+c"] then (m, tea_Quit)
      else UpdateKey m msg
  | otherMsg => (m, tea_Batch [])
  end.

(** ** A platform and widgets to run the program on

    Insertion sort stands for [sort.Slice]; the widgets are the simplest
    ones: a text input that holds its value, a list that holds its items,
    selects the first and quits on [q]. *)

Fixpoint insertBy {A} (less : A -> A -> bool) (x : A) (l : list A) : list A :=
  match l with
  | [] => [x]
  | y :: rest => if less x y then x :: y :: rest else y :: insertBy less x rest
  end.

Fixpoint insertionSort {A} (less : A -> A -> bool) (l : list A) : list A :=
  match l with
  | [] => []
  | x :: rest => insertBy less x (insertionSort less rest)
  end.

Definition plainBubbles : Bubbles := {|
  textinput_Model := string;
  list_Model := list fontMetadata;
  viewport_Model := string;
  spinner_Model := unit;
  widget_Cmd := unit;
  textinput_Value := fun ti => ti;
  textinput_SetValue := fun _ v => v;
  textinput_Focus := fun ti => ti;
  textinput_Blur := fun ti => ti;
  textinput_SetWidth := fun ti _ => ti;
  textinput_SetPlaceholder := fun ti _ => ti;
  textinput_PromptWidth := fun _ => 2;
  textinput_Update := fun ti msg =>
    (if KeyType_eqb (Type_ msg) KeyRunes then (ti ++ Runes msg)%string else ti,
     lib_nil);
  list_New := fun items _ _ => items;
  list_ItemsNotNil := fun l => negb (List.length l =? 0)%nat;
  list_SetSize := fun l _ _ => l;
  list_SelectedItem := fun l => hd_error l;
  list_Update := fun l msg =>
    (l, if key_Matches msg ["q"] then lib_Quit else lib_nil);
  viewport_New := fun _ _ content => content;
  viewport_SetWidth := fun v _ => v;
  viewport_SetHeight := fun v _ => v;
  viewport_Update := fun v _ => (v, lib_nil);
  spinner_Update := fun s _ _ => (s, lib_nil);
  docStyle_HorizontalFrameSize := 4;
  headerView_Height := 3;
  footerView_Height := fun _ _ => 2;
  successStyle_Render := fun s => s
|}.

(** A figlet that rejects the width flag and otherwise prints its last
    argument, installed in [/usr/share/figlet] next to three files. *)
Definition demoPlatform : Platform := {|
  exec_Output := fun _ c =>
    if existsb (String.eqb "-w") (cmd_args c) then Err "exit status 1"
    else match cmd_args c with
         | ["-I"; "2"] => Ok ("/usr/share/figlet" ++ String LF "")%string
         | args => Ok (last args "" ++ String LF "")%string
         end;
  os_isDir := fun p => String.eqb p "/usr/share/figlet";
  filepath_Join := fun a b => (a ++ "/" ++ b)%string;
  filepath_WalkDir := fun root =>
    [ {| visit_path := root; visit_name := filepath.Base root;
         visit_isDir := true; visit_err := None |};
      {| visit_path := (root ++ "/alpha.flf")%string;
         visit_name := "alpha.flf";
         visit_isDir := false; visit_err := None |};
      {| visit_path := (root ++ "/notafont.txt")%string;
         visit_name := "notafont.txt";
         visit_isDir := false; visit_err := None |};
      {| visit_path := (root ++ "/Zeta.FLF")%string;
         visit_name := "Zeta.FLF";
         visit_isDir := false; visit_err := None |} ];
  sort_Slice := insertionSort;
  os_WriteFile := fun _ _ => None
|}.

Definition typed (runes : string) : KeyMsg :=
  {| Type_ := KeyRunes; Runes := runes; Alt := false; Paste := false |}.

Definition pressed (t : KeyType) : KeyMsg :=
  {| Type_ := t; Runes := ""; Alt := false; Paste := false |}.

Definition demoFont (name : string) : fontMetadata :=
  {| Name := name;
     Path := ("/usr/share/figlet/" ++ name ++ ".flf")%string;
     PreviewRender := "" |}.

(** A session on [plainBubbles] in a given state, with [value] in the
    text input. *)
Definition demoModel (s : appState) (value : string) : @model plainBubbles :=
  @Build_model plainBubbles s value [] "" tt
    [demoFont "standard"] "" "" (demoFont "standard") 80 24 "" ""
    "/usr/bin/figlet".

(** The session after a save: the status screen with its message. *)
Definition savedModel : @model plainBubbles :=
  set_statusMessage (demoModel stateShowStatusMessage "out.txt")
                    "Saved to out.txt!".

(** Words used to state what [strings.TrimSpace] returns.  [madeOf chunk s]:
    the text [s] is a sequence of pieces that [chunk] accepts. *)
Inductive madeOf (chunk : string -> bool) : string -> Prop :=
| madeOf_nil : madeOf chunk ""
| madeOf_cons (bytes rest : string) :
    chunk bytes = true -> madeOf chunk rest ->
    madeOf chunk (bytes ++ rest).

(** The encoding of a white space rune, read from its last byte. *)
Definition isSpaceBackwards (bytes : string) : bool :=
  strings.isSpace (strings.reverse bytes).

(** The white space of the specification, "empty or whitespace-only",
    written out: the bytes of each white space rune of Unicode in UTF-8,
    U+0009 to U+000D, U+0020, U+0085, U+00A0, U+1680, U+2000 to U+200A,
    U+2028, U+2029, U+202F, U+205F and U+3000. *)
Definition whiteSpaceBytes : list (list nat) :=
  [[9]; [10]; [11]; [12]; [13]; [32]; [194; 133]; [194; 160];
   [225; 154; 128];
   [226; 128; 128]; [226; 128; 129]; [226; 128; 130]; [226; 128; 131];
   [226; 128; 132]; [226; 128; 133]; [226; 128; 134]; [226; 128; 135];
   [226; 128; 136]; [226; 128; 137]; [226; 128; 138];
   [226; 128; 168]; [226; 128; 169]; [226; 128; 175]; [226; 129; 159];
   [227; 128; 128]]%nat.

Definition bytesOf (codes : list nat) : string :=
  fold_right (fun n s => String (ascii_of_nat n) s) "" codes.

Definition isWhiteSpaceRune (bytes : string) : bool :=
  existsb (String.eqb bytes) (map bytesOf whiteSpaceBytes).

(** A text of white space runes only; it may be empty. *)
Definition allSpace (s : string) : Prop := madeOf isWhiteSpaceRune s.

Definition startsWith (chunk : string -> bool) (s : string) : Prop :=
  exists bytes rest, chunk bytes = true /\ s = (bytes ++ rest)%string.

Definition startsWithSpace (s : string) : Prop :=
  startsWith isWhiteSpaceRune s.

Definition endsWithSpace (s : string) : Prop :=
  exists rest bytes,
    isWhiteSpaceRune bytes = true /\ s = (rest ++ bytes)%string.

(** [t] is [s] without the white space at its two ends. *)
Definition trimmedOf (s t : string) : Prop :=
  exists lead trail,
    s = (lead ++ t ++ trail)%string
    /\ allSpace lead /\ allSpace trail
    /\ ~ startsWithSpace t /\ ~ endsWithSpace t.

(** What [generatePreviewsCmd] stores for one font. *)
Definition previewed `{Platform}
    (figletCmdPath inputText : string) (width : Z)
    (font p : fontMetadata) : Prop :=
  Name p = Name font /\ Path p = Path font
  /\ exists log r log',
       runFiglet figletCmdPath (Path font) inputText width log = Some (r, log')
       /\ match r with
          | Ok output =>
              truncateString output previewLines = Some (PreviewRender p)
              /\ (lineCount (PreviewRender p) <= 11)%nat
          | Err err => PreviewRender p = ("Error rendering: " ++ err)%string
          end.

(** The specification's font files: "any file whose name ends in a fixed
    case-insensitive extension".  These are the spellings of [.flf]. *)
Definition flfExtensions : list string :=
  [".flf"; ".flF"; ".fLf"; ".fLF"; ".Flf"; ".FlF"; ".FLf"; ".FLF"].

Definition endsInFlf (name : string) : Prop :=
  exists stem ext, name = (stem ++ ext)%string /\ In ext flfExtensions.

(** The directory of the specification's example: [alpha.flf],
    [Zeta.FLF] and [notafont.txt]. *)
Definition exampleVisits : list Visit :=
  [ {| visit_path := "/usr/share/figlet/alpha.flf";
       visit_name := "alpha.flf";
       visit_isDir := false; visit_err := None |};
    {| visit_path := "/usr/share/figlet/Zeta.FLF";
       visit_name := "Zeta.FLF";
       visit_isDir := false; visit_err := None |};
    {| visit_path := "/usr/share/figlet/notafont.txt";
       visit_name := "notafont.txt";
       visit_isDir := false; visit_err := None |} ].

(** A machine without figlet and without any of its directories. *)
Definition barePlatform : Platform := {|
  exec_Output := fun _ _ => Err "executable file not found in $PATH";
  os_isDir := fun _ => false;
  filepath_Join := fun a b => (a ++ "/" ++ b)%string;
  filepath_WalkDir := fun _ => [];
  sort_Slice := insertionSort;
  os_WriteFile := fun _ _ => Some "read-only file system"
|}.

(** A font directory with one font and a subdirectory that cannot be
    read. *)
Definition brokenPlatform : Platform := {|
  exec_Output := exec_Output (Platform := demoPlatform);
  os_isDir := os_isDir (Platform := demoPlatform);
  filepath_Join := fun a b => (a ++ "/" ++ b)%string;
  filepath_WalkDir := fun root =>
    [ {| visit_path := (root ++ "/alpha.flf")%string;
         visit_name := "alpha.flf";
         visit_isDir := false; visit_err := None |};
      {| visit_path := (root ++ "/private")%string;
         visit_name := "private";
         visit_isDir := true; visit_err := Some "permission denied" |};
      {| visit_path := (root ++ "/zeta.flf")%string;
         visit_name := "zeta.flf";
         visit_isDir := false; visit_err := None |} ];
  sort_Slice := insertionSort;
  os_WriteFile := fun _ _ => None
|}.

(** The moves between screens that a key can make. *)
Definition keyStep (s s' : appState) : bool :=
  existsb (appState_eqb s')
    match s with
    | stateInputText => [stateInputText; stateLoadingPreviews]
    | stateSelectFontWithPreview =>
        [stateSelectFontWithPreview; stateInputText;
         stateGeneratingFullOutput]
    | stateOutputChoice =>
        [stateOutputChoice; stateDisplayFiglet; stateSaveFileNameInput;
         stateSelectFontWithPreview]
    | stateSaveFileNameInput => [stateSaveFileNameInput; stateOutputChoice]
    | stateDisplayFiglet => [stateDisplayFiglet; stateSelectFontWithPreview]
    | stateShowStatusMessage =>
        [stateShowStatusMessage; stateSelectFontWithPreview]
    | stateError => [stateError]
    | stateInitialLoading => [stateInitialLoading]
    | stateLoadingPreviews => [stateLoadingPreviews]
    | stateGeneratingFullOutput => [stateGeneratingFullOutput]
    end.

(** ** The list item delegate *)

(** The lipgloss styles of [delegateStyles]: each is used through its
    [Render] only. *)
Class DelegateStyles : Type := {
  NormalTitle_Render : string -> string;
  SelectedTitle_Render : string -> string;
  NormalPreview_Render : string -> string;
  SelectedPreview_Render : string -> string;
  FontName_Render : string -> string
}.

Record itemDelegate : Type := {
  PreviewLines : Z
}.

Definition newItemDelegate : itemDelegate :=
  {| PreviewLines := previewLines |}.

Definition itemDelegate_Height (d : itemDelegate) : Z :=
  wrap_int (wrap_int (1 + PreviewLines d) + 1).

Definition itemDelegate_Spacing (d : itemDelegate) : Z := 1.

(** A [list.Item]: a [fontMetadata], or a value of another type. *)
Inductive list_Item : Type :=
| Item_fontMetadata (item : fontMetadata)
| Item_other.

(** The arrow of the selected title, U+27A4 in UTF-8, and a space. *)
Definition selectedMark : string :=
  String (ascii_of_nat 226)
    (String (ascii_of_nat 158) (String (ascii_of_nat 164) " ")).

(** [itemDelegate.Render]: what it writes to [w], given [m.Index()], the
    index of the item and the item. *)
Definition itemDelegate_Render `{DelegateStyles}
    (d : itemDelegate) (listIndex index : Z) (listItem : list_Item)
  : option string :=
  match listItem with
  | Item_other => Some ""
  | Item_fontMetadata item =>
      let isSelected := index =? listIndex in
      let nameStr := FontName_Render (Name item) in
      let (styledName, styledPreview) :=
        if isSelected
        then (SelectedTitle_Render (selectedMark ++ nameStr)%string,
              SelectedPreview_Render (PreviewRender item))
        else (NormalTitle_Render ("  " ++ nameStr)%string,
              NormalPreview_Render (PreviewRender item)) in
      let previewLinesRender := strings.Split styledPreview LF in
      match
        (if Z.of_nat (List.length previewLinesRender) >? PreviewLines d
         then sliceTo previewLinesRender (PreviewLines d)
         else Some previewLinesRender)
      with
      | None => None
      | Some previewLinesRender =>
          Some (styledName ++ String LF ""
                ++ strings.Join previewLinesRender (String LF ""))%string
      end
  end.

(** Styles that change nothing. *)
Definition plainStyles : DelegateStyles := {|
  NormalTitle_Render := fun s => s;
  SelectedTitle_Render := fun s => s;
  NormalPreview_Render := fun s => s;
  SelectedPreview_Render := fun s => s;
  FontName_Render := fun s => s
|}.

(** The messages by which tasks and timers report back. *)
Definition isTaskResult (msg : Msg) : bool :=
  match msg with
  | initialResourcesLoadedMsg _ | previewsGeneratedMsg _
  | fullFigletRenderedMsg _ | fileSavedMsg _ | errorMsg _
  | statusTimeoutMsg => true
  | _ => false
  end.

(* ===================================================================== *)
(** * Properties *)
(* ===================================================================== *)

(** ** Facts about strings *)

Lemma string_app_assoc (a b c : string) :
  ((a ++ b) ++ c = a ++ (b ++ c))%string.
Proof. induction a as [|x rest IH]; simpl; [reflexivity | now rewrite IH]. Qed.

Lemma string_app_nil_r (a : string) : (a ++ "")%string = a.
Proof. induction a as [|x rest IH]; simpl; [reflexivity | now rewrite IH]. Qed.

Lemma string_length_app a b :
  String.length (a ++ b) = (String.length a + String.length b)%nat.
Proof. induction a as [|c rest IH]; simpl; [reflexivity | now rewrite IH]. Qed.

(** ** Trimming *)

Section TrimStart.

Variable chunk : string -> bool.

(** Every piece is one, two or three bytes long. *)
Hypothesis chunk_length :
  forall bytes, chunk bytes = true ->
  (1 <= String.length bytes <= 3)%nat.

Lemma madeOf_app a b :
  madeOf chunk a -> madeOf chunk b -> madeOf chunk (a ++ b).
Proof.
  induction 1 as [|bytes rest Hb _ IH]; intros Hm; [exact Hm|].
  rewrite string_app_assoc. constructor; auto.
Qed.

Lemma madeOf_one bytes : chunk bytes = true -> madeOf chunk bytes.
Proof.
  intros H. rewrite <- (string_app_nil_r bytes). constructor; [exact H|].
  constructor.
Qed.

Lemma trimStart_cases s :
  (~ startsWith chunk s /\ strings.trimStart chunk s = s)
  \/ (exists bytes rest,
        chunk bytes = true /\ s = (bytes ++ rest)%string
        /\ strings.trimStart chunk s = strings.trimStart chunk rest).
Proof.
  assert (Hshape : forall bytes,
             chunk bytes = true ->
             (exists x, bytes = String x "")
             \/ (exists x y, bytes = String x (String y ""))
             \/ (exists x y z, bytes = String x (String y (String z "")))).
  { intros bytes Hc. apply chunk_length in Hc.
    destruct bytes as [|x [|y [|z [|w t]]]]; simpl in Hc; try lia; eauto 6. }
  destruct s as [|a r1].
  { left. split; [|reflexivity]. intros (bytes & rest & Hc & Heq).
    destruct (Hshape bytes Hc) as [(x & ->) | [(x & y & ->) | (x & y & z & ->)]];
      discriminate. }
  destruct (chunk (String a "")) eqn:E1.
  { right. exists (String a ""), r1. simpl. now rewrite E1. }
  destruct r1 as [|b r2].
  { left. split; [|simpl; now rewrite E1]. intros (bytes & rest & Hc & Heq).
    destruct (Hshape bytes Hc) as [(x & ->) | [(x & y & ->) | (x & y & z & ->)]];
      simpl in Heq; try discriminate.
    injection Heq as <- _. congruence. }
  destruct (chunk (String a (String b ""))) eqn:E2.
  { right. exists (String a (String b "")), r2. simpl. now rewrite E1, E2. }
  destruct r2 as [|c r3].
  { left. split; [|simpl; now rewrite E1, E2]. intros (bytes & rest & Hc & Heq).
    destruct (Hshape bytes Hc) as [(x & ->) | [(x & y & ->) | (x & y & z & ->)]];
      simpl in Heq; try discriminate.
    - injection Heq as <- _. congruence.
    - injection Heq as <- <- _. congruence. }
  destruct (chunk (String a (String b (String c "")))) eqn:E3.
  { right. exists (String a (String b (String c ""))), r3. simpl.
    now rewrite E1, E2, E3. }
  left. split; [|simpl; now rewrite E1, E2, E3]. intros (bytes & rest & Hc & Heq).
  destruct (Hshape bytes Hc) as [(x & ->) | [(x & y & ->) | (x & y & z & ->)]];
    simpl in Heq.
  - injection Heq as <- _. congruence.
  - injection Heq as <- <- _. congruence.
  - injection Heq as <- <- <- _. congruence.
Qed.

Lemma trimStart_bounded n :
  forall s, (String.length s <= n)%nat ->
  (exists lead,
      s = (lead ++ strings.trimStart chunk s)%string /\ madeOf chunk lead)
  /\ ~ startsWith chunk (strings.trimStart chunk s).
Proof.
  induction n as [|n IH]; intros s Hn;
    destruct (trimStart_cases s)
      as [[Hno Hstop] | (bytes & rest & Hc & Heq & Hstep)].
  - rewrite Hstop. split; [|exact Hno].
    exists "". split; [reflexivity | constructor].
  - apply chunk_length in Hc. subst s.
    rewrite string_length_app in Hn. lia.
  - rewrite Hstop. split; [|exact Hno].
    exists "". split; [reflexivity | constructor].
  - pose proof (chunk_length bytes Hc) as Hlen.
    assert (Hrest : (String.length rest <= n)%nat)
      by (subst s; rewrite string_length_app in Hn; lia).
    destruct (IH rest Hrest) as [(lead & Hl & Hm) Hno]. rewrite Hstep.
    split; [|exact Hno].
    exists (bytes ++ lead)%string. split.
    + rewrite string_app_assoc, <- Hl. exact Heq.
    + now constructor.
Qed.

Lemma trimStart_split s :
  exists lead,
    s = (lead ++ strings.trimStart chunk s)%string /\ madeOf chunk lead.
Proof. apply (trimStart_bounded (String.length s)). lia. Qed.

Lemma trimStart_no_chunk_left s :
  ~ startsWith chunk (strings.trimStart chunk s).
Proof. apply (trimStart_bounded (String.length s)). lia. Qed.

Lemma trimStart_fixed s :
  ~ startsWith chunk s -> strings.trimStart chunk s = s.
Proof.
  intros Hno.
  destruct (trimStart_cases s) as [[_ Hstop] | (bytes & rest & Hc & Heq & _)];
    [exact Hstop|].
  exfalso. apply Hno. now exists bytes, rest.
Qed.

(** No piece is the start of another. *)
Hypothesis chunk_prefix_free :
  forall x y x' y',
    chunk x = true -> chunk x' = true ->
    (x ++ y)%string = (x' ++ y')%string -> x = x'.

Lemma trimStart_madeOf s : madeOf chunk s -> strings.trimStart chunk s = "".
Proof.
  induction 1 as [|bytes rest Hb Hm IH]; [reflexivity|].
  destruct (trimStart_cases (bytes ++ rest))
    as [[Hno _] | (bytes' & rest' & Hc & Heq & Hstep)].
  - exfalso. apply Hno. now exists bytes, rest.
  - pose proof (chunk_prefix_free _ _ _ _ Hb Hc Heq) as <-.
    assert (rest = rest') as <-.
    { clear - Heq. induction bytes as [|c t IHt]; simpl in Heq; [exact Heq|].
      injection Heq as Heq. auto. }
    now rewrite Hstep.
Qed.

End TrimStart.

(** ** White space and [strings.TrimSpace] *)

Lemma reverse_app a b :
  strings.reverse (a ++ b) = (strings.reverse b ++ strings.reverse a)%string.
Proof.
  induction a as [|c rest IH]; simpl.
  - now rewrite string_app_nil_r.
  - now rewrite IH, string_app_assoc.
Qed.

Lemma reverse_involutive s : strings.reverse (strings.reverse s) = s.
Proof.
  induction s as [|c rest IH]; simpl; [reflexivity|].
  now rewrite reverse_app, IH.
Qed.

Lemma reverse_length s :
  String.length (strings.reverse s) = String.length s.
Proof.
  induction s as [|c rest IH]; simpl; [reflexivity|].
  rewrite string_length_app, IH. simpl. lia.
Qed.

(** The white space that [strings.TrimSpace] trims is the white space
    written out in [whiteSpaceBytes]. *)
Lemma isSpace_isWhiteSpaceRune : strings.isSpace = isWhiteSpaceRune.
Proof. reflexivity. Qed.

Lemma isSpace_encoding bytes :
  strings.isSpace bytes = true ->
  In bytes (map strings.encodeRune strings.whiteSpaceRunes).
Proof.
  unfold strings.isSpace. intros H.
  apply existsb_exists in H as (e & Hin & He).
  apply String.eqb_eq in He. now subst.
Qed.

Ltac each_encoding H :=
  vm_compute in H;
  repeat (destruct H as [H | H]; [symmetry in H; subst|]);
  try contradiction.

Lemma isSpace_length bytes :
  strings.isSpace bytes = true -> (1 <= String.length bytes <= 3)%nat.
Proof.
  intros H. apply isSpace_encoding in H. each_encoding H; simpl; lia.
Qed.

Lemma isSpace_prefix_free x y x' y' :
  strings.isSpace x = true -> strings.isSpace x' = true ->
  (x ++ y)%string = (x' ++ y')%string -> x = x'.
Proof.
  intros H H'. apply isSpace_encoding in H, H'.
  each_encoding H; each_encoding H'; simpl; intros E;
    first [reflexivity | discriminate E].
Qed.

Lemma isSpaceBackwards_encoding bytes :
  isSpaceBackwards bytes = true ->
  In bytes (map strings.reverse
               (map strings.encodeRune strings.whiteSpaceRunes)).
Proof.
  intros H. apply isSpace_encoding in H.
  rewrite <- (reverse_involutive bytes). now apply in_map.
Qed.

Lemma isSpaceBackwards_length bytes :
  isSpaceBackwards bytes = true -> (1 <= String.length bytes <= 3)%nat.
Proof.
  intros H. apply isSpace_length in H. now rewrite reverse_length in H.
Qed.

Lemma isSpaceBackwards_prefix_free x y x' y' :
  isSpaceBackwards x = true -> isSpaceBackwards x' = true ->
  (x ++ y)%string = (x' ++ y')%string -> x = x'.
Proof.
  intros H H'. apply isSpaceBackwards_encoding in H, H'.
  each_encoding H; each_encoding H'; simpl; intros E;
    first [reflexivity | discriminate E].
Qed.

Lemma TrimRight_unfold s :
  strings.TrimRight s
  = strings.reverse
      (strings.trimStart isSpaceBackwards (strings.reverse s)).
Proof. reflexivity. Qed.

Lemma allSpace_backwards s :
  madeOf isSpaceBackwards s -> allSpace (strings.reverse s).
Proof.
  induction 1 as [|bytes rest Hb _ IH]; [constructor|].
  rewrite reverse_app. apply madeOf_app; [exact IH|].
  now apply madeOf_one.
Qed.

Lemma allSpace_forwards s :
  allSpace s -> madeOf isSpaceBackwards (strings.reverse s).
Proof.
  induction 1 as [|bytes rest Hb _ IH]; [constructor|].
  rewrite reverse_app. apply madeOf_app; [exact IH|].
  apply madeOf_one. unfold isSpaceBackwards. now rewrite reverse_involutive.
Qed.

Lemma TrimRight_split s :
  exists trail,
    s = (strings.TrimRight s ++ trail)%string
    /\ allSpace trail
    /\ ~ endsWithSpace (strings.TrimRight s).
Proof.
  rewrite TrimRight_unfold.
  destruct (trimStart_split isSpaceBackwards isSpaceBackwards_length
              (strings.reverse s))
    as (lead & Heq & Hm).
  exists (strings.reverse lead). split; [|split].
  - rewrite <- reverse_app, <- Heq. symmetry. apply reverse_involutive.
  - now apply allSpace_backwards.
  - intros (rest & bytes & Hb & Hr).
    apply (trimStart_no_chunk_left isSpaceBackwards isSpaceBackwards_length
             (strings.reverse s)).
    exists (strings.reverse bytes), (strings.reverse rest). split.
    + unfold isSpaceBackwards. now rewrite reverse_involutive.
    + rewrite <- reverse_app, <- Hr. symmetry. apply reverse_involutive.
Qed.

Lemma TrimSpace_split s :
  exists lead trail,
    s = (lead ++ strings.TrimSpace s ++ trail)%string
    /\ allSpace lead /\ allSpace trail
    /\ ~ startsWithSpace (strings.TrimSpace s)
    /\ ~ endsWithSpace (strings.TrimSpace s).
Proof.
  destruct (trimStart_split strings.isSpace isSpace_length s)
    as (lead & Hl & Hlead).
  fold (strings.TrimLeft s) in Hl.
  destruct (TrimRight_split (strings.TrimLeft s)) as (trail & Hr & Htrail & Hend).
  exists lead, trail. unfold strings.TrimSpace.
  split; [now rewrite <- Hr|]. split; [exact Hlead|]. split; [exact Htrail|].
  split; [|exact Hend].
  intros (bytes & rest & Hb & Heq).
  apply (trimStart_no_chunk_left strings.isSpace isSpace_length s).
  exists bytes, (rest ++ trail)%string. split; [exact Hb|].
  fold (strings.TrimLeft s). rewrite Hr at 1. rewrite Heq.
  apply string_app_assoc.
Qed.

Lemma TrimSpace_empty_iff s : strings.TrimSpace s = "" <-> allSpace s.
Proof.
  split.
  - intros He. destruct (TrimSpace_split s) as (lead & trail & Hs & Hl & Ht & _).
    rewrite He in Hs. rewrite Hs. simpl. now apply madeOf_app.
  - intros Ha. unfold strings.TrimSpace, strings.TrimLeft.
    now rewrite (trimStart_madeOf strings.isSpace isSpace_length
                   isSpace_prefix_free s Ha).
Qed.

Lemma TrimSpace_idempotent s :
  strings.TrimSpace (strings.TrimSpace s) = strings.TrimSpace s.
Proof.
  destruct (TrimSpace_split s) as (_ & _ & _ & _ & _ & Hstart & Hend).
  set (t := strings.TrimSpace s) in *.
  unfold strings.TrimSpace at 1. unfold strings.TrimLeft.
  rewrite (trimStart_fixed strings.isSpace isSpace_length t Hstart).
  rewrite TrimRight_unfold, trimStart_fixed;
    [apply reverse_involutive | exact isSpaceBackwards_length |].
  intros (bytes & rest & Hb & Heq). apply Hend.
  exists (strings.reverse rest), (strings.reverse bytes). split; [exact Hb|].
  rewrite <- reverse_app, <- Heq. symmetry. apply reverse_involutive.
Qed.

Lemma TrimSpace_trimmedOf s : trimmedOf s (strings.TrimSpace s).
Proof. apply TrimSpace_split. Qed.

Lemma isBlank_allSpace line : isBlank line = true <-> allSpace line.
Proof.
  unfold isBlank. rewrite String.eqb_eq. apply TrimSpace_empty_iff.
Qed.

Lemma isBlank_false line : ~ allSpace line -> isBlank line = false.
Proof.
  intros H. destruct (isBlank line) eqn:E; [|reflexivity].
  now apply isBlank_allSpace in E.
Qed.

Lemma Forall_isBlank_allSpace lines :
  Forall (fun l => isBlank l = true) lines <-> Forall allSpace lines.
Proof.
  split; intros H; (eapply Forall_impl; [|exact H]); intros l;
    apply isBlank_allSpace.
Qed.

(** ** Facts about [strings.Split] and [strings.Join] *)

Lemma Split_not_nil s sep : strings.Split s sep <> [].
Proof.
  destruct s as [|c rest]; simpl; [discriminate|].
  destruct (Ascii.eqb c sep); [discriminate|].
  destruct (strings.Split rest sep); discriminate.
Qed.

Lemma Split_length_pos s sep : (1 <= List.length (strings.Split s sep))%nat.
Proof.
  pose proof (Split_not_nil s sep) as H.
  destruct (strings.Split s sep); [congruence | simpl; lia].
Qed.

Lemma Split_lines_free s sep :
  Forall (fun l => hasByte sep l = false) (strings.Split s sep).
Proof.
  induction s as [|c rest IH]; simpl.
  - repeat constructor.
  - destruct (Ascii.eqb c sep) eqn:E.
    + constructor; [reflexivity | exact IH].
    + destruct (strings.Split rest sep) as [|first others].
      * constructor; [simpl; now rewrite E | constructor].
      * inversion IH; subst. constructor; [simpl; now rewrite E | assumption].
Qed.

Lemma Split_free s sep : hasByte sep s = false -> strings.Split s sep = [s].
Proof.
  induction s as [|c rest IH]; simpl; [reflexivity|].
  intros H. apply orb_false_iff in H as [Hc Hr].
  rewrite Hc, (IH Hr). reflexivity.
Qed.

Lemma Split_app_sep a t sep :
  hasByte sep a = false ->
  strings.Split (a ++ String sep t) sep = a :: strings.Split t sep.
Proof.
  induction a as [|c rest IH]; simpl.
  - intros _. now rewrite Ascii.eqb_refl.
  - intros H. apply orb_false_iff in H as [Hc Hr].
    rewrite Hc, (IH Hr). reflexivity.
Qed.

Lemma Split_Join lines sep :
  lines <> [] ->
  Forall (fun l => hasByte sep l = false) lines ->
  strings.Split (strings.Join lines (String sep "")) sep = lines.
Proof.
  induction lines as [|a rest IH]; [congruence|].
  intros _ HF. inversion HF as [|? ? Ha Hrest]; subst.
  destruct rest as [|b rest'].
  - simpl. now apply Split_free.
  - change (strings.Join (a :: b :: rest') (String sep ""))
      with (a ++ String sep (strings.Join (b :: rest') (String sep "")))%string.
    rewrite (Split_app_sep _ _ _ Ha), IH; [reflexivity | discriminate | assumption].
Qed.

Lemma Join_Split s sep : strings.Join (strings.Split s sep) (String sep "") = s.
Proof.
  induction s as [|c rest IH]; simpl; [reflexivity|].
  destruct (Ascii.eqb c sep) eqn:E.
  - apply Ascii.eqb_eq in E; subst c.
    pose proof (Split_not_nil rest sep) as Hn.
    destruct (strings.Split rest sep) as [|x xs] eqn:Es; [congruence|].
    change (strings.Join ("" :: x :: xs) (String sep ""))
      with (String sep (strings.Join (x :: xs) (String sep ""))).
    now rewrite IH.
  - pose proof (Split_not_nil rest sep) as Hn.
    destruct (strings.Split rest sep) as [|x xs] eqn:Es; [congruence|].
    destruct xs as [|y ys].
    + simpl in *. now rewrite IH.
    + change (strings.Join (String c x :: y :: ys) (String sep ""))
        with (String c (x ++ String sep (strings.Join (y :: ys) (String sep ""))))%string.
      change (strings.Join (x :: y :: ys) (String sep ""))
        with (x ++ String sep (strings.Join (y :: ys) (String sep "")))%string in IH.
      now rewrite IH.
Qed.

(** ** Facts about the trailing-blank loop *)

Lemma truncateString_loop_cons l ls :
  truncateString_loop (l :: ls) =
  if isBlank (last (l :: ls) "")
  then truncateString_loop (removelast (l :: ls)) else l :: ls.
Proof.
  simp truncateString_loop. unfold isBlank.
  destruct (String.eqb (strings.TrimSpace (last (l :: ls) "")) ""); reflexivity.
Qed.

Lemma truncateString_loop_snoc ls x :
  truncateString_loop (ls ++ [x]) =
  if isBlank x then truncateString_loop ls else ls ++ [x].
Proof.
  destruct ls as [|a ls'].
  - simpl app. rewrite truncateString_loop_cons. simpl.
    now simp truncateString_loop.
  - change ((a :: ls') ++ [x]) with (a :: (ls' ++ [x])).
    rewrite truncateString_loop_cons.
    change (a :: (ls' ++ [x])) with ((a :: ls') ++ [x]).
    now rewrite last_last, removelast_last.
Qed.

Lemma dropTrailingBlank_snoc ls x :
  dropTrailingBlank (ls ++ [x]) =
  if isBlank x then dropTrailingBlank ls else ls ++ [x].
Proof.
  induction ls as [|a ls' IH]; simpl.
  - destruct (isBlank x); reflexivity.
  - rewrite IH. destruct (isBlank x); [reflexivity|].
    destruct ls'; reflexivity.
Qed.

(** The loop of the source and the specification's wording agree. *)
Lemma truncateString_loop_dropTrailingBlank lines :
  truncateString_loop lines = dropTrailingBlank lines.
Proof.
  induction lines as [|x ls IH] using rev_ind.
  - now simp truncateString_loop.
  - rewrite truncateString_loop_snoc, dropTrailingBlank_snoc, IH. reflexivity.
Qed.

Lemma dropTrailingBlank_length lines :
  (List.length (dropTrailingBlank lines) <= List.length lines)%nat.
Proof.
  induction lines as [|x ls IH] using rev_ind; [simpl; lia|].
  rewrite dropTrailingBlank_snoc, length_app. simpl.
  destruct (isBlank x); [lia | rewrite length_app; simpl; lia].
Qed.

Lemma dropTrailingBlank_Forall (P : string -> Prop) lines :
  Forall P lines -> Forall P (dropTrailingBlank lines).
Proof.
  induction lines as [|x ls IH] using rev_ind; [trivial|].
  intros H. rewrite dropTrailingBlank_snoc.
  destruct (isBlank x); [|assumption].
  apply IH. apply Forall_app in H. tauto.
Qed.

Lemma dropTrailingBlank_nil_iff lines :
  dropTrailingBlank lines = [] <-> Forall (fun l => isBlank l = true) lines.
Proof.
  induction lines as [|x ls IH] using rev_ind.
  - simpl. split; auto.
  - rewrite dropTrailingBlank_snoc, Forall_app.
    destruct (isBlank x) eqn:E.
    + rewrite IH. split; [intros H; split; auto | tauto].
    + split.
      * intros H. destruct ls; discriminate.
      * intros [_ H]. inversion H; congruence.
Qed.

Lemma dropTrailingBlank_last lines :
  dropTrailingBlank lines <> [] ->
  isBlank (last (dropTrailingBlank lines) "") = false.
Proof.
  induction lines as [|x ls IH] using rev_ind; [simpl; congruence|].
  rewrite dropTrailingBlank_snoc.
  destruct (isBlank x) eqn:E; [exact IH|].
  intros _. now rewrite last_last.
Qed.

Lemma dropTrailingBlank_fixed lines :
  lines <> [] -> isBlank (last lines "") = false ->
  dropTrailingBlank lines = lines.
Proof.
  destruct lines as [|x ls _] using rev_ind; [congruence|].
  intros _. rewrite last_last, dropTrailingBlank_snoc.
  now intros ->.
Qed.

(** ** [truncateString] against the specification *)

Lemma Forall_take {A} (P : A -> Prop) (l : list A) (n : nat) :
  Forall P l -> Forall P (firstn n l).
Proof.
  intros H. revert n. induction H as [|x xs Hx _ IH]; intros [|n]; simpl;
    constructor; auto.
Qed.

Lemma firstn_all_ge {A} (l : list A) (n : Z) :
  Z.of_nat (List.length l) <= n -> firstn (Z.to_nat n) l = l.
Proof. intros H. apply firstn_all2. lia. Qed.

(** For a non-negative budget the source computes what the words of the
    specification describe; for a negative one it panics. *)
Lemma truncateString_refines s n :
  0 <= n -> truncateString s n = Some (truncate_spec s (Z.to_nat n)).
Proof.
  intros Hn. unfold truncateString, truncate_spec, sliceTo.
  destruct (Z.of_nat (List.length (strings.Split s LF)) >? n) eqn:E.
  - assert (Hb : ((n <? 0) || (Z.of_nat (List.length (strings.Split s LF)) <? n)) = false).
    { apply orb_false_iff; split; apply Z.ltb_ge; lia. }
    rewrite Hb. now rewrite truncateString_loop_dropTrailingBlank.
  - rewrite truncateString_loop_dropTrailingBlank, firstn_all_ge; [reflexivity|lia].
Qed.

Lemma truncateString_negative s n : n < 0 -> truncateString s n = None.
Proof.
  intros Hn. unfold truncateString, sliceTo.
  pose proof (Split_length_pos s LF).
  destruct (Z.of_nat (List.length (strings.Split s LF)) >? n) eqn:E; [|lia].
  assert (Hb : (n <? 0) = true) by (apply Z.ltb_lt; lia).
  now rewrite Hb.
Qed.

Lemma truncate_spec_lines s n :
  let kept := dropTrailingBlank (firstn n (strings.Split s LF)) in
  kept <> [] -> strings.Split (truncate_spec s n) LF = kept.
Proof.
  intros kept Hk. unfold truncate_spec. apply Split_Join; [exact Hk|].
  apply dropTrailingBlank_Forall, Forall_take, Split_lines_free.
Qed.

Lemma truncate_spec_nil s n :
  dropTrailingBlank (firstn n (strings.Split s LF)) = [] ->
  truncate_spec s n = "".
Proof. unfold truncate_spec. now intros ->. Qed.

Lemma truncate_spec_not_empty s n :
  dropTrailingBlank (firstn n (strings.Split s LF)) <> [] ->
  truncate_spec s n <> "".
Proof.
  intros Hk Hempty.
  pose proof (truncate_spec_lines s n Hk) as Hl.
  pose proof (dropTrailingBlank_last _ Hk) as Hlast.
  rewrite Hempty in Hl. simpl in Hl. rewrite <- Hl in Hlast.
  discriminate Hlast.
Qed.

Lemma truncateString_bounded_stripped_blank (s : string) (n : Z) :
  0 <= n ->
  exists out,
    truncateString s n = Some out
    /\ out = truncate_spec s (Z.to_nat n)
    /\ (exists kept,
           out = strings.Join kept (String LF "")
           /\ Forall (fun l => hasByte LF l = false) kept
           /\ Z.of_nat (List.length kept) <= n)
    /\ Z.of_nat (lineCount out) <= Z.max 1 n
    /\ (isBlank (last (strings.Split out LF) "") = true ->
        Forall (fun l => isBlank l = true)
               (firstn (Z.to_nat n) (strings.Split s LF)))
    /\ (Forall (fun l => isBlank l = true)
               (firstn (Z.to_nat n) (strings.Split s LF)) ->
        out = "").
Proof.
  intros Hn. exists (truncate_spec s (Z.to_nat n)).
  set (prefix := firstn (Z.to_nat n) (strings.Split s LF)).
  assert (Hlen : Z.of_nat (List.length (dropTrailingBlank prefix)) <= n).
  { pose proof (dropTrailingBlank_length prefix) as H1.
    pose proof (firstn_le_length (Z.to_nat n) (strings.Split s LF)) as H2.
    fold prefix in H2. lia. }
  split; [now apply truncateString_refines|].
  split; [reflexivity|].
  split.
  { exists (dropTrailingBlank prefix). split; [reflexivity|]. split; [|exact Hlen].
    apply dropTrailingBlank_Forall, Forall_take, Split_lines_free. }
  destruct (dropTrailingBlank prefix) as [|k ks] eqn:Hk.
  - assert (Hout : truncate_spec s (Z.to_nat n) = "")
      by (apply truncate_spec_nil; exact Hk).
    rewrite Hout. unfold lineCount. simpl.
    split; [lia|]. split; [|reflexivity].
    intros _. now apply dropTrailingBlank_nil_iff.
  - assert (Hne : dropTrailingBlank prefix <> []) by (rewrite Hk; discriminate).
    pose proof (truncate_spec_lines s (Z.to_nat n) Hne) as Hl.
    fold prefix in Hl. unfold lineCount. rewrite Hl.
    split; [rewrite Hk; lia|]. split.
    + intros Hb. rewrite (dropTrailingBlank_last _ Hne) in Hb. discriminate.
    + intros Hall. apply dropTrailingBlank_nil_iff in Hall. congruence.
Qed.

(** C5, on the domain where the source does not panic.  For every string
    [s] and every budget [0 <= n], [truncateString s n] returns; what it
    returns is the specification's "trailing blank lines dropped from the
    first [n] lines" (the stripping works on the truncated prefix); it is
    the join of at most [n] lines, so that it has at most [max 1 n] lines
    as [strings.Split] counts them; and its last line is empty or white
    space only when every line of the kept prefix is, in which case it
    is empty.  A line is blank for the code exactly when it consists of
    white space runes. *)
Theorem truncateString_total_bounded_stripped (s : string) (n : Z) :
  0 <= n ->
  exists out,
    truncateString s n = Some out
    /\ out = truncate_spec s (Z.to_nat n)
    /\ (exists kept,
           out = strings.Join kept (String LF "")
           /\ Forall (fun l => hasByte LF l = false) kept
           /\ Z.of_nat (List.length kept) <= n)
    /\ Z.of_nat (lineCount out) <= Z.max 1 n
    /\ (allSpace (last (strings.Split out LF) "") ->
        Forall allSpace (firstn (Z.to_nat n) (strings.Split s LF)))
    /\ (Forall allSpace (firstn (Z.to_nat n) (strings.Split s LF)) ->
        out = "")
    /\ (forall line, isBlank line = true <-> allSpace line).
Proof.
  intros Hn.
  destruct (truncateString_bounded_stripped_blank s n Hn)
    as (out & Hrun & Hspec & Hkept & Hcount & Hlast & Hall).
  exists out. repeat (split; [assumption|]). split; [|split].
  - intros Hb. apply Forall_isBlank_allSpace, Hlast.
    now apply isBlank_allSpace.
  - intros Hb. now apply Hall, Forall_isBlank_allSpace.
  - exact isBlank_allSpace.
Qed.

(** C6.  Truncation is idempotent: whenever [truncateString s n] returns
    [out], truncating [out] again with the same budget returns [out]; and
    it fails to return only for a negative budget, where the second call
    would fail in the same way. *)
Theorem truncateString_idempotent (s : string) (n : Z) :
  match truncateString s n with
  | Some out => truncateString out n = Some out
  | None => n < 0
  end.
Proof.
  destruct (Z.lt_ge_cases n 0) as [Hneg | Hn].
  - now rewrite truncateString_negative.
  - rewrite (truncateString_refines s n Hn).
    rewrite (truncateString_refines _ n Hn). f_equal.
    set (prefix := firstn (Z.to_nat n) (strings.Split s LF)).
    destruct (dropTrailingBlank prefix) as [|k ks] eqn:Hk.
    + rewrite (truncate_spec_nil s (Z.to_nat n) Hk).
      unfold truncate_spec. simpl.
      destruct (Z.to_nat n) as [|[|m]]; reflexivity.
    + assert (Hne : dropTrailingBlank prefix <> []) by (rewrite Hk; discriminate).
      pose proof (truncate_spec_lines s (Z.to_nat n) Hne) as Hl.
      fold prefix in Hl.
      unfold truncate_spec at 1. rewrite Hl.
      rewrite firstn_all2.
      * rewrite dropTrailingBlank_fixed;
          [reflexivity | exact Hne | now apply dropTrailingBlank_last].
      * pose proof (dropTrailingBlank_length prefix) as H1.
        pose proof (firstn_le_length (Z.to_nat n) (strings.Split s LF)) as H2.
        fold prefix in H2. lia.
Qed.

Lemma truncate_spec_lineCount s n :
  (lineCount (truncate_spec s n) <= Nat.max 1 n)%nat.
Proof.
  destruct (dropTrailingBlank (firstn n (strings.Split s LF))) as [|k ks] eqn:Hk.
  - rewrite (truncate_spec_nil s n Hk). unfold lineCount.
    change (1 <= Nat.max 1 n)%nat. lia.
  - assert (Hne : dropTrailingBlank (firstn n (strings.Split s LF)) <> [])
      by (rewrite Hk; discriminate).
    unfold lineCount. rewrite (truncate_spec_lines s n Hne).
    pose proof (dropTrailingBlank_length (firstn n (strings.Split s LF))).
    pose proof (firstn_le_length n (strings.Split s LF)). lia.
Qed.

(** ** [runFiglet] and the preview batch *)

Lemma runFiglet_unfold `{Platform} figletCmdPath fontPath text width log :
  let withWidth :=
    Command figletCmdPath ["-f"; fontPath; "-w"; Sprintf_d width; text] in
  let withoutWidth := Command figletCmdPath ["-f"; fontPath; text] in
  runFiglet figletCmdPath fontPath text width log =
  match exec_Output log withWidth with
  | Ok output => Some (Ok output, log ++ [withWidth])
  | Err _ =>
      match exec_Output (log ++ [withWidth]) withoutWidth with
      | Ok output => Some (Ok output, log ++ [withWidth; withoutWidth])
      | Err err =>
          Some (Err ("figlet failed (path: " ++ fontPath
                     ++ ", text: " ++ text
                     ++ ", width: " ++ Sprintf_d width ++ "): " ++ err)%string,
                log ++ [withWidth; withoutWidth])
      end
  end.
Proof.
  intros withWidth withoutWidth. unfold runFiglet, bind, Output, ret.
  fold withWidth. fold withoutWidth.
  destruct (exec_Output log withWidth) as [output|e1]; [reflexivity|].
  replace (log ++ [withWidth; withoutWidth])
    with ((log ++ [withWidth]) ++ [withoutWidth])
    by (rewrite <- app_assoc; reflexivity).
  destruct (exec_Output (log ++ [withWidth]) withoutWidth); reflexivity.
Qed.

Lemma runFiglet_returns `{Platform} figletCmdPath fontPath text width log :
  exists r log', runFiglet figletCmdPath fontPath text width log = Some (r, log').
Proof.
  rewrite runFiglet_unfold.
  destruct (exec_Output log _); [eauto|].
  destruct (exec_Output (log ++ _) _); eauto.
Qed.

(** C4.  [runFiglet] first runs figlet with [-w width].  When that call
    succeeds its output is the result and no other call is made.  When it
    fails, exactly one more call is made, without the width flag: its
    output is the result, and only when it fails too does [runFiglet]
    return an error.  The log shows the calls made. *)
Theorem runFiglet_retries_once_without_width `{Platform}
    (figletCmdPath fontPath text : string) (width : Z) (log : Log) :
  let withWidth :=
    Command figletCmdPath ["-f"; fontPath; "-w"; Sprintf_d width; text] in
  let withoutWidth := Command figletCmdPath ["-f"; fontPath; text] in
  match exec_Output log withWidth with
  | Ok output =>
      runFiglet figletCmdPath fontPath text width log
      = Some (Ok output, log ++ [withWidth])
  | Err _ =>
      match exec_Output (log ++ [withWidth]) withoutWidth with
      | Ok output =>
          runFiglet figletCmdPath fontPath text width log
          = Some (Ok output, log ++ [withWidth; withoutWidth])
      | Err err =>
          exists message,
            runFiglet figletCmdPath fontPath text width log
            = Some (Err message, log ++ [withWidth; withoutWidth])
            /\ message
               = ("figlet failed (path: " ++ fontPath ++ ", text: " ++ text
                  ++ ", width: " ++ Sprintf_d width ++ "): " ++ err)%string
      end
  end.
Proof.
  intros withWidth withoutWidth.
  pose proof (runFiglet_unfold figletCmdPath fontPath text width log) as E.
  cbv zeta in E. fold withWidth withoutWidth in E.
  destruct (exec_Output log withWidth); [exact E|].
  destruct (exec_Output (log ++ [withWidth]) withoutWidth); [exact E|].
  eexists. split; [exact E | reflexivity].
Qed.

(** A figlet that fails on every call with [-w] still renders. *)
Example runFiglet_without_width_support :
  @runFiglet demoPlatform "/usr/bin/figlet" "/usr/share/figlet/alpha.flf"
             "hi" 60 []
  = Some (Ok ("hi" ++ String LF "")%string,
          [Command "/usr/bin/figlet"
             ["-f"; "/usr/share/figlet/alpha.flf"; "-w"; "60"; "hi"];
           Command "/usr/bin/figlet"
             ["-f"; "/usr/share/figlet/alpha.flf"; "hi"]]).
Proof. reflexivity. Qed.

Lemma previewOf_returns `{Platform} figletCmdPath inputText width font log :
  exists p log',
    previewOf figletCmdPath inputText width font log = Some (p, log')
    /\ previewed figletCmdPath inputText width font p.
Proof.
  unfold previewOf, bind.
  destruct (runFiglet_returns figletCmdPath (Path font) inputText width log)
    as (r & log1 & Hr).
  rewrite Hr. destruct r as [output|err].
  - assert (Ht : truncateString output previewLines
                 = Some (truncate_spec output (Z.to_nat previewLines)))
      by (apply truncateString_refines; unfold previewLines; lia).
    rewrite Ht. simpl. do 2 eexists. split; [reflexivity|].
    split; [reflexivity|]. split; [reflexivity|].
    exists log, (Ok output), log1. split; [exact Hr|]. simpl.
    split; [exact Ht|].
    pose proof (truncate_spec_lineCount output (Z.to_nat previewLines)) as Hl.
    unfold previewLines in *. simpl in *. lia.
  - simpl. do 2 eexists. split; [reflexivity|].
    split; [reflexivity|]. split; [reflexivity|].
    exists log, (Err err), log1. split; [exact Hr | reflexivity].
Qed.

Lemma forEach_previewOf `{Platform} figletCmdPath inputText width fonts :
  forall log,
  exists ps log',
    forEach (previewOf figletCmdPath inputText width) fonts log = Some (ps, log')
    /\ Forall2 (previewed figletCmdPath inputText width) fonts ps.
Proof.
  induction fonts as [|font rest IH]; intros log; simpl.
  - exists [], log. split; [reflexivity | constructor].
  - unfold bind.
    destruct (previewOf_returns figletCmdPath inputText width font log)
      as (p & log1 & Hp & Hrel).
    rewrite Hp. destruct (IH log1) as (ps & log2 & Hps & Hall).
    rewrite Hps. exists (p :: ps), log2. split; [reflexivity|].
    now constructor.
Qed.

(** C3.  The preview batch always resolves to [previewsGeneratedMsg],
    never to an error and never by a panic, with one entry per font, in
    order, under the font's name and path.  An entry whose rendering
    succeeded holds the output truncated to [previewLines] lines; an
    entry whose rendering failed holds the placeholder that starts with
    ["Error rendering: "]; the fonts after it are processed all the
    same. *)
Theorem generatePreviewsCmd_absorbs_failures `{Platform} `{Bubbles}
    (m : model) (log : Log) :
  let width :=
    if int_sub (termWidth m) 20 <? 20 then 20 else int_sub (termWidth m) 20 in
  exists fontsWithPreviews log',
    generatePreviewsCmd m log
    = Some (previewsGeneratedMsg fontsWithPreviews, log')
    /\ List.length fontsWithPreviews = List.length (fonts m)
    /\ Forall2 (previewed (figletCmdPath m) (inputText m) width)
               (fonts m) fontsWithPreviews.
Proof.
  intros width. unfold generatePreviewsCmd, bind. fold width.
  destruct (forEach_previewOf (figletCmdPath m) (inputText m) width (fonts m) log)
    as (ps & log' & Hps & Hall).
  rewrite Hps. exists ps, log'. split; [reflexivity|].
  split; [symmetry; eapply Forall2_length; exact Hall | exact Hall].
Qed.

(** ** The controller *)

Lemma Enter_is_not_quit (msg : KeyMsg) :
  Type_ msg = KeyEnter -> key_Matches msg ["ctrl+c"] = false.
Proof.
  destruct msg as [t r a p]; simpl. intros ->.
  unfold key_Matches, KeyMsg_String; simpl. destruct a; reflexivity.
Qed.

Lemma Matches_cons (msg : KeyMsg) (k : string) (keys : list string) :
  key_Matches msg (k :: keys)
  = String.eqb (KeyMsg_String msg) k || key_Matches msg keys.
Proof. reflexivity. Qed.

Lemma Update_key `{Bubbles} (m : model) (msg : KeyMsg) :
  Update m (tea_KeyMsg msg)
  = if key_Matches msg ["ctrl+c"] then (m, tea_Quit) else UpdateKey m msg.
Proof. reflexivity. Qed.

(** C9.  The key [ctrl+c] quits from every state: whatever the session
    [m], [Update] returns [m] untouched together with [tea.Quit], so that
    no widget and no state-specific handler sees the key. *)
Theorem ctrl_c_quits_from_every_state `{Bubbles}
    (m : model) (runes : string) (paste : bool) :
  let msg :=
    {| Type_ := KeyCtrlC; Runes := runes; Alt := false; Paste := paste |} in
  KeyMsg_String msg = "ctrl+c"
  /\ Update m (tea_KeyMsg msg) = (m, tea_Quit).
Proof. split; reflexivity. Qed.

(** C7, at the input where the source departs from it.  In the Error
    state the typed key [x] does not quit: [Update] returns the session
    as it is and an empty batch.  Only [q], [esc] and [enter] (and
    [ctrl+c]) quit. *)
Theorem error_state_ignores_typed_x `{Bubbles} (m : model) :
  let m := set_state m stateError in
  Update m (tea_KeyMsg (typed "x")) = (m, tea_Batch [])
  /\ Update m (tea_KeyMsg (typed "q")) = (m, tea_Quit)
  /\ Update m (tea_KeyMsg (pressed KeyEsc)) = (m, tea_Quit)
  /\ Update m (tea_KeyMsg (pressed KeyEnter)) = (m, tea_Quit).
Proof. repeat split; reflexivity. Qed.

(** C8 as stated fails: on the status screen a typed [x] changes
    nothing, the screen stays StatusMessage and the message stays. *)
Lemma status_message_stays_on_typed_x :
  let after := fst (Update savedModel (tea_KeyMsg (typed "x"))) in
  state savedModel = stateShowStatusMessage
  /\ state after = stateShowStatusMessage
  /\ statusMessage after = "Saved to out.txt!".
Proof. repeat split; reflexivity. Qed.

(** C8, amended.  A successful save shows the status screen and starts a
    tick of two seconds that delivers [statusTimeoutMsg].  On the status
    screen, that message, and a key that reads [enter] or [esc], lead to
    SelectFont with the status message cleared and nothing else changed;
    any other key apart from [ctrl+c] changes nothing. *)
Theorem status_message_leaves_on_timeout_enter_esc `{Bubbles}
    (m : model) (path : string) :
  state m = stateShowStatusMessage ->
  let left := set_state (set_statusMessage m "") stateSelectFontWithPreview in
  state left = stateSelectFontWithPreview
  /\ statusMessage left = ""
  /\ (forall before : model,
      let saved := Update before (fileSavedMsg path) in
      state (fst saved) = stateShowStatusMessage
      /\ snd saved = tea_Batch [tea_Tick (2 * 1000000000) statusTimeoutMsg])
  /\ Update m statusTimeoutMsg = (left, tea_Batch [])
  /\ (forall msg, key_Matches msg ["enter"; "esc"] = true ->
        Update m (tea_KeyMsg msg) = (left, tea_Batch []))
  /\ (forall msg, key_Matches msg ["enter"; "esc"; "ctrl+c"] = false ->
        Update m (tea_KeyMsg msg) = (m, tea_Batch [])).
Proof.
  intros Hs left.
  split; [reflexivity|]. split; [reflexivity|].
  split; [intros before; split; reflexivity|].
  split; [reflexivity|]. split.
  - intros msg Hk. rewrite Update_key.
    assert (Hq : key_Matches msg ["ctrl+c"] = false).
    { rewrite !Matches_cons in *. unfold key_Matches in *. simpl in *.
      rewrite !orb_false_r in *. apply orb_true_iff in Hk as [Hk | Hk];
        apply String.eqb_eq in Hk; rewrite Hk; reflexivity. }
    rewrite Hq. unfold UpdateKey. rewrite Hs, Hk. reflexivity.
  - intros msg Hk. rewrite Update_key.
    rewrite !Matches_cons in Hk.
    apply orb_false_iff in Hk as [He Hk].
    apply orb_false_iff in Hk as [Hesc Hq].
    rewrite (Matches_cons msg "ctrl+c" []), Hq. unfold UpdateKey. rewrite Hs.
    rewrite !Matches_cons, He, Hesc. reflexivity.
Qed.

Lemma status_message_leaves_witness :
  state savedModel = stateShowStatusMessage
  /\ Update savedModel (tea_KeyMsg (pressed KeyEsc))
     = (set_state (set_statusMessage savedModel "") stateSelectFontWithPreview,
        tea_Batch []).
Proof.
  split; [reflexivity|].
  apply (@status_message_leaves_on_timeout_enter_esc plainBubbles
           savedModel "out.txt" eq_refl).
  reflexivity.
Defined.

(** C1 as stated fails: a session that went back to InputText, with the
    font [standard], receives a late preview batch for the font [stale];
    its font list is overwritten and its screen becomes SelectFont. *)
Lemma stale_previews_overwrite_session :
  let m := demoModel stateInputText "new text" in
  let after := fst (Update m (previewsGeneratedMsg [demoFont "stale"])) in
  state m <> stateLoadingPreviews
  /\ fonts m = [demoFont "standard"]
  /\ fonts after = [demoFont "stale"]
  /\ state after = stateSelectFontWithPreview
  /\ after <> m.
Proof.
  cbv zeta. split; [discriminate|]. split; [reflexivity|].
  split; [reflexivity|]. split; [reflexivity|]. discriminate.
Qed.

(** C1, amended.  [Update] applies [previewsGeneratedMsg] in every
    state, without a guard: the font list becomes the delivered one, the
    list widget is rebuilt from it, the screen becomes SelectFont; every
    other field of the session keeps its value and no task is started. *)
Theorem previewsGeneratedMsg_applied_in_every_state `{Bubbles}
    (m : model) (fontsWithPreviews : list fontMetadata) :
  let after := fst (Update m (previewsGeneratedMsg fontsWithPreviews)) in
  snd (Update m (previewsGeneratedMsg fontsWithPreviews)) = tea_Batch []
  /\ fonts after = fontsWithPreviews
  /\ state after = stateSelectFontWithPreview
  /\ fontList after
     = list_New fontsWithPreviews
                (int_sub (termWidth m) docStyle_HorizontalFrameSize)
                (paneHeight m)
  /\ inputText after = inputText m
  /\ selectedFontMeta after = selectedFontMeta m
  /\ fullFigletOutput after = fullFigletOutput m
  /\ textInput after = textInput m
  /\ figletViewport after = figletViewport m
  /\ spinner after = spinner m
  /\ termWidth after = termWidth m
  /\ termHeight after = termHeight m
  /\ errorMessage after = errorMessage m
  /\ statusMessage after = statusMessage m
  /\ figletCmdPath after = figletCmdPath m.
Proof. repeat split; reflexivity. Qed.

(** ** [strings.TrimSpace] and the confirmation of the text *)

(** C10.  In the InputText state, Enter stores the entered value with
    its leading and trailing white space removed, never the raw value.
    When nothing remains, which is the case exactly for an empty or
    white-space-only value, the screen stays InputText and no command is
    issued.  Otherwise the screen becomes LoadingPreviews and the preview
    task is issued for the session that holds the trimmed text. *)
Theorem enter_confirms_trimmed_text `{Bubbles} (m : model) (msg : KeyMsg) :
  state m = stateInputText ->
  Type_ msg = KeyEnter ->
  let entered := textinput_Value (textInput m) in
  let after := fst (Update m (tea_KeyMsg msg)) in
  let cmd := snd (Update m (tea_KeyMsg msg)) in
  inputText after = strings.TrimSpace entered
  /\ (exists lead trail,
        entered = (lead ++ inputText after ++ trail)%string
        /\ allSpace lead /\ allSpace trail
        /\ ~ startsWithSpace (inputText after)
        /\ ~ endsWithSpace (inputText after))
  /\ (allSpace entered <-> inputText after = "")
  /\ (inputText after = "" ->
      state after = stateInputText /\ cmd = tea_Batch []
      /\ after = set_inputText m "")
  /\ (inputText after <> "" ->
      state after = stateLoadingPreviews
      /\ cmd = tea_Batch [spinner_Tick (spinner after);
                          cmd_generatePreviews after]).
Proof.
  intros Hs Hk entered after cmd.
  assert (E : Update m (tea_KeyMsg msg) =
              let m1 := set_inputText m (strings.TrimSpace entered) in
              if negb (String.eqb (strings.TrimSpace entered) "") then
                let m2 := set_textInput (set_state m1 stateLoadingPreviews)
                            (textinput_Blur (textInput m)) in
                (m2, tea_Batch [spinner_Tick (spinner m); cmd_generatePreviews m2])
              else (m1, tea_Batch [])).
  { rewrite Update_key, (Enter_is_not_quit msg Hk).
    unfold UpdateKey. rewrite Hs, Hk. reflexivity. }
  assert (Hin : inputText after = strings.TrimSpace entered).
  { unfold after. rewrite E. cbv zeta.
    destruct (negb (String.eqb (strings.TrimSpace entered) "")); reflexivity. }
  split; [exact Hin|]. split.
  { rewrite Hin. apply TrimSpace_split. }
  split.
  { rewrite Hin. symmetry. apply TrimSpace_empty_iff. }
  unfold after, cmd in *. rewrite E in *. cbv zeta in *.
  destruct (String.eqb (strings.TrimSpace entered) "") eqn:He; simpl in *.
  - apply String.eqb_eq in He. split.
    + intros _. rewrite He. repeat split. exact Hs.
    + intros Hne. congruence.
  - apply String.eqb_neq in He. split.
    + intros Hempty. congruence.
    + intros _. split; reflexivity.
Qed.

Lemma enter_confirms_trimmed_text_witness :
  state (demoModel stateInputText "  hello ") = stateInputText
  /\ Type_ (pressed KeyEnter) = KeyEnter
  /\ inputText
       (fst (Update (demoModel stateInputText "  hello ")
                    (tea_KeyMsg (pressed KeyEnter))))
     = "hello".
Proof.
  split; [reflexivity|]. split; [reflexivity|].
  destruct (@enter_confirms_trimmed_text plainBubbles
              (demoModel stateInputText "  hello ") (pressed KeyEnter)
              eq_refl eq_refl) as [Hin _].
  exact Hin.
Defined.

(** ** The order of names: Go's [<] on strings *)

Lemma ascii_compare_lt_trans a b c :
  Ascii.compare a b = Lt -> Ascii.compare b c = Lt -> Ascii.compare a c = Lt.
Proof.
  unfold Ascii.compare. rewrite !N.compare_lt_iff. apply N.lt_trans.
Qed.

Lemma string_compare_refl s : String.compare s s = Eq.
Proof.
  induction s as [|c rest IH]; simpl; [reflexivity|].
  unfold Ascii.compare. now rewrite N.compare_refl.
Qed.

Lemma string_compare_lt_trans s1 :
  forall s2 s3,
    String.compare s1 s2 = Lt -> String.compare s2 s3 = Lt ->
    String.compare s1 s3 = Lt.
Proof.
  induction s1 as [|a r1 IH]; intros [|b r2] [|c r3]; simpl;
    try discriminate; try reflexivity.
  destruct (Ascii.compare a b) eqn:Hab; try discriminate;
    destruct (Ascii.compare b c) eqn:Hbc; try discriminate; intros H1 H2.
  - apply Ascii.compare_eq_iff in Hab, Hbc. subst.
    unfold Ascii.compare. rewrite N.compare_refl. eauto.
  - apply Ascii.compare_eq_iff in Hab. subst. now rewrite Hbc.
  - apply Ascii.compare_eq_iff in Hbc. subst. now rewrite Hab.
  - now rewrite (ascii_compare_lt_trans _ _ _ Hab Hbc).
Qed.

Lemma ltb_false_leb a b : String.ltb b a = false -> String.leb a b = true.
Proof.
  unfold String.ltb, String.leb. rewrite (String.compare_antisym b a).
  destruct (String.compare a b); simpl; congruence.
Qed.

Lemma ltb_asym a b : String.ltb a b = true -> String.ltb b a = false.
Proof.
  unfold String.ltb. rewrite (String.compare_antisym b a).
  destruct (String.compare a b); simpl; congruence.
Qed.

Lemma leb_trans a b c :
  String.leb a b = true -> String.leb b c = true -> String.leb a c = true.
Proof.
  unfold String.leb.
  destruct (String.compare a b) eqn:Hab; try discriminate;
    destruct (String.compare b c) eqn:Hbc; try discriminate; intros _ _.
  - apply String.compare_eq_iff in Hab, Hbc. subst.
    now rewrite string_compare_refl.
  - apply String.compare_eq_iff in Hab. subst. now rewrite Hbc.
  - apply String.compare_eq_iff in Hbc. subst. now rewrite Hab.
  - now rewrite (string_compare_lt_trans _ _ _ Hab Hbc).
Qed.

(** ** Sorted lists of names *)

Lemma sorted_names_unique (l1 : list string) :
  forall l2,
    Permutation l1 l2 ->
    StronglySorted (fun a b => String.leb a b = true) l1 ->
    StronglySorted (fun a b => String.leb a b = true) l2 ->
    l1 = l2.
Proof.
  induction l1 as [|a r1 IH]; intros l2 Hp H1 H2.
  - apply Permutation_nil in Hp. now subst.
  - destruct l2 as [|b r2];
      [apply Permutation_sym, Permutation_nil in Hp; discriminate|].
    apply StronglySorted_inv in H1 as [S1 F1].
    apply StronglySorted_inv in H2 as [S2 F2].
    assert (Hab : a = b).
    { assert (Ia : In a (b :: r2))
        by (eapply Permutation_in; [exact Hp | now left]).
      assert (Ib : In b (a :: r1))
        by (eapply Permutation_in; [apply Permutation_sym; exact Hp | now left]).
      destruct Ia as [-> | Ia]; [reflexivity|].
      destruct Ib as [-> | Ib]; [reflexivity|].
      rewrite Forall_forall in F1, F2.
      apply String.leb_antisym; auto. }
    subst b. f_equal. apply IH; auto.
    eapply Permutation_cons_inv; exact Hp.
Qed.

Lemma StronglySorted_map_Name (l : list fontMetadata) :
  StronglySorted (fun a b => String.leb (Name a) (Name b) = true) l ->
  StronglySorted (fun a b => String.leb a b = true) (map Name l).
Proof.
  induction 1 as [|a l _ IH F]; simpl; constructor; [exact IH|].
  rewrite Forall_forall in *. intros x Hx.
  apply in_map_iff in Hx as (f & <- & Hf). auto.
Qed.

(** What [sort.Slice] promises for [lessByName]: the slice is permuted,
    and afterwards no element is less than the one before it. *)
Lemma sorted_by_name (l : list fontMetadata) :
  Sorted (fun a b => lessByName b a = false) l ->
  StronglySorted (fun a b => String.leb (Name a) (Name b) = true) l.
Proof.
  intros H.
  assert (S : Sorted (fun a b => String.leb (Name a) (Name b) = true) l).
  { induction H as [|a l _ IH Hd]; constructor; [exact IH|].
    destruct Hd; constructor. now apply ltb_false_leb. }
  apply Sorted_StronglySorted; [|exact S].
  intros x y z. apply leb_trans.
Qed.

(** ** Insertion sort keeps the promise of [sort.Slice] *)

Lemma insertBy_perm {A} (less : A -> A -> bool) x l :
  Permutation (insertBy less x l) (x :: l).
Proof.
  induction l as [|y rest IH]; simpl; [reflexivity|].
  destruct (less x y); [reflexivity|].
  rewrite IH. apply perm_swap.
Qed.

Lemma insertionSort_perm {A} (less : A -> A -> bool) l :
  Permutation (insertionSort less l) l.
Proof.
  induction l as [|x rest IH]; simpl; [reflexivity|].
  rewrite insertBy_perm. now constructor.
Qed.

Lemma insertBy_sorted {A} (less : A -> A -> bool) x l :
  (forall a b, less a b = true -> less b a = false) ->
  Sorted (fun a b => less b a = false) l ->
  Sorted (fun a b => less b a = false) (insertBy less x l).
Proof.
  intros Hasym. induction 1 as [|y rest Hs IH Hd]; simpl.
  - repeat constructor.
  - destruct (less x y) eqn:Hxy.
    + constructor; [now constructor|]. constructor. now apply Hasym.
    + constructor; [exact IH|].
      destruct rest as [|z rest']; simpl.
      * now constructor.
      * destruct (less x z); constructor; [exact Hxy|].
        now inversion Hd.
Qed.

Lemma insertionSort_sorted {A} (less : A -> A -> bool) l :
  (forall a b, less a b = true -> less b a = false) ->
  Sorted (fun a b => less b a = false) (insertionSort less l).
Proof.
  intros Hasym. induction l as [|x rest IH]; simpl; [constructor|].
  now apply insertBy_sorted.
Qed.

Lemma lessByName_asym a b : lessByName a b = true -> lessByName b a = false.
Proof. apply ltb_asym. Qed.

(** ** Suffixes and extensions *)

Lemma substring_all s : substring 0 (String.length s) s = s.
Proof. induction s as [|c rest IH]; simpl; [reflexivity | now rewrite IH]. Qed.

Lemma substring_none s : substring 0 0 s = "".
Proof. destruct s; reflexivity. Qed.

Lemma substring_app_prefix pre suf :
  substring 0 (String.length pre) (pre ++ suf) = pre.
Proof.
  induction pre as [|c rest IH]; simpl; [apply substring_none | now rewrite IH].
Qed.

Lemma substring_app_suffix pre suf :
  substring (String.length pre) (String.length suf) (pre ++ suf) = suf.
Proof.
  induction pre as [|c rest IH]; simpl; [apply substring_all | exact IH].
Qed.

Lemma substring_split s :
  forall k, (k <= String.length s)%nat ->
  s = (substring 0 k s ++ substring k (String.length s - k) s)%string.
Proof.
  induction s as [|c rest IH]; intros [|k] Hk; simpl in *; try lia.
  - reflexivity.
  - now rewrite substring_all.
  - f_equal. apply IH. lia.
Qed.

Lemma HasSuffix_app pre suf : strings.HasSuffix (pre ++ suf) suf = true.
Proof.
  unfold strings.HasSuffix. rewrite string_length_app.
  replace (String.length pre + String.length suf - String.length suf)%nat
    with (String.length pre) by lia.
  rewrite substring_app_suffix, String.eqb_refl, andb_true_r.
  apply Nat.leb_le. lia.
Qed.

Lemma TrimSuffix_app pre suf : strings.TrimSuffix (pre ++ suf) suf = pre.
Proof.
  unfold strings.TrimSuffix. rewrite HasSuffix_app, string_length_app.
  replace (String.length pre + String.length suf - String.length suf)%nat
    with (String.length pre) by lia.
  apply substring_app_prefix.
Qed.

Lemma HasSuffix_inv s suf :
  strings.HasSuffix s suf = true -> exists pre, s = (pre ++ suf)%string.
Proof.
  unfold strings.HasSuffix. intros H.
  apply andb_true_iff in H as [Hlen Heq].
  apply Nat.leb_le in Hlen. apply String.eqb_eq in Heq.
  exists (substring 0 (String.length s - String.length suf) s).
  pose proof (substring_split s (String.length s - String.length suf)) as Hsp.
  replace (String.length s - (String.length s - String.length suf))%nat
    with (String.length suf) in Hsp by lia.
  rewrite Heq in Hsp. apply Hsp. lia.
Qed.

Lemma ToLower_app a b :
  strings.ToLower (a ++ b) = (strings.ToLower a ++ strings.ToLower b)%string.
Proof. induction a as [|c rest IH]; simpl; [reflexivity | now rewrite IH]. Qed.

Lemma ToLower_app_inv a :
  forall s b,
    strings.ToLower s = (a ++ b)%string ->
    exists sa sb,
      s = (sa ++ sb)%string /\ strings.ToLower sa = a /\ strings.ToLower sb = b.
Proof.
  induction a as [|x rest IH]; intros s b H.
  - exists "", s. repeat split. exact H.
  - destruct s as [|c r]; simpl in H; [discriminate|].
    injection H as Hc Hr. destruct (IH r b Hr) as (sa & sb & -> & Ha & Hb).
    exists (String c sa), sb. simpl. now rewrite Hc, Ha, Hb.
Qed.

Lemma hasByte_app c a b : hasByte c (a ++ b) = hasByte c a || hasByte c b.
Proof.
  induction a as [|d rest IH]; simpl; [reflexivity|].
  now rewrite IH, orb_assoc.
Qed.

Ltac every_byte c :=
  destruct c as [[] [] [] [] [] [] [] []]; vm_compute; intros;
  try discriminate; auto.

Lemma lowerByte_dot c : strings.lowerByte c = "."%char -> c = "."%char.
Proof. every_byte c. Qed.

Lemma lowerByte_f c :
  strings.lowerByte c = "f"%char -> c = "f"%char \/ c = "F"%char.
Proof. every_byte c. Qed.

Lemma lowerByte_l c :
  strings.lowerByte c = "l"%char -> c = "l"%char \/ c = "L"%char.
Proof. every_byte c. Qed.

Lemma ToLower_flf ext :
  strings.ToLower ext = ".flf" <-> In ext flfExtensions.
Proof.
  split.
  - destruct ext as [|c0 [|c1 [|c2 [|c3 [|c4 rest]]]]]; simpl;
      try discriminate. intros H. injection H as H0 H1 H2 H3.
    apply lowerByte_dot in H0. apply lowerByte_f in H1, H3.
    apply lowerByte_l in H2. subst c0.
    destruct H1 as [-> | ->], H2 as [-> | ->], H3 as [-> | ->]; tauto.
  - unfold flfExtensions. simpl. intros H.
    repeat (destruct H as [<- | H]; [reflexivity|]). contradiction.
Qed.

Lemma Ext_flf stem ext :
  In ext flfExtensions -> filepath.Ext (stem ++ ext) = ext.
Proof.
  intros Hin.
  assert (Hdot : forall pre, hasByte "." (pre ++ ext) = true).
  { intros pre. rewrite hasByte_app.
    unfold flfExtensions in Hin. simpl in Hin.
    repeat (destruct Hin as [<- | Hin]; [apply orb_true_r|]). contradiction. }
  induction stem as [|c rest IH]; simpl.
  - unfold flfExtensions in Hin. simpl in Hin.
    repeat (destruct Hin as [<- | Hin]; [reflexivity|]). contradiction.
  - now rewrite Hdot, orb_true_r.
Qed.

Lemma endsInFlf_HasSuffix name :
  strings.HasSuffix (strings.ToLower name) ".flf" = true <-> endsInFlf name.
Proof.
  split.
  - intros H. apply HasSuffix_inv in H as (pre & Hpre).
    apply ToLower_app_inv in Hpre as (stem & ext & -> & _ & Hext).
    exists stem, ext. split; [reflexivity | now apply ToLower_flf].
  - intros (stem & ext & -> & Hext). apply ToLower_flf in Hext.
    rewrite ToLower_app, Hext. apply HasSuffix_app.
Qed.

Lemma fontOfPath_strips_extension p :
  endsInFlf (filepath.Base p) ->
  Path (fontOfPath p) = p /\ PreviewRender (fontOfPath p) = ""
  /\ exists ext,
       In ext flfExtensions
       /\ filepath.Base p = (Name (fontOfPath p) ++ ext)%string.
Proof.
  intros (stem & ext & Hbase & Hext). split; [reflexivity|].
  split; [reflexivity|]. exists ext. split; [exact Hext|].
  unfold fontOfPath. simpl. rewrite Hbase at 2 3.
  now rewrite (Ext_flf stem ext Hext), TrimSuffix_app.
Qed.

(** ** The walk *)

Lemma WalkDir_without_errors visits :
  Forall (fun v => visit_err v = None) visits ->
  forall fontPaths,
    WalkDir visits fontPaths
    = (fontPaths ++ map visit_path (filter isFontFile visits), None).
Proof.
  induction 1 as [|v rest Hv _ IH]; intros fontPaths; simpl.
  - now rewrite app_nil_r.
  - unfold walkFn. rewrite Hv. destruct (isFontFile v); simpl.
    + rewrite IH, <- app_assoc. reflexivity.
    + apply IH.
Qed.

(** ** Font discovery *)

Lemma isFontFile_spec v :
  isFontFile v = true <-> visit_isDir v = false /\ endsInFlf (visit_name v).
Proof.
  unfold isFontFile. rewrite andb_true_iff, negb_true_iff.
  now rewrite endsInFlf_HasSuffix.
Qed.

Lemma fontsOfWalk_without_errors `{Platform} fontDir visits :
  Forall (fun v => visit_err v = None) visits ->
  fontsOfWalk fontDir visits =
  match filter isFontFile visits with
  | [] => Err ("no .flf font files found in " ++ fontDir
               ++ " or subdirectories")%string
  | found => Ok (sort_Slice lessByName
                   (map fontOfPath (map visit_path found)))
  end.
Proof.
  intros Hv. unfold fontsOfWalk.
  rewrite (WalkDir_without_errors visits Hv). simpl.
  destruct (filter isFontFile visits); reflexivity.
Qed.

Lemma found_fonts_well_named visits :
  Forall (fun v => filepath.Base (visit_path v) = visit_name v) visits ->
  Forall (fun f =>
            PreviewRender f = ""
            /\ exists ext,
                 In ext flfExtensions
                 /\ filepath.Base (Path f) = (Name f ++ ext)%string)
         (map fontOfPath (map visit_path (filter isFontFile visits))).
Proof.
  intros Hv. rewrite map_map. apply Forall_forall. intros f Hf.
  apply in_map_iff in Hf as (v & <- & Hin).
  apply filter_In in Hin as [Hin Hfont].
  rewrite Forall_forall in Hv. specialize (Hv v Hin).
  apply isFontFile_spec in Hfont as [_ Hends]. rewrite <- Hv in Hends.
  destruct (fontOfPath_strips_extension (visit_path v) Hends)
    as (HP & HR & ext & Hext & Hbase).
  split; [exact HR|]. exists ext. rewrite HP. now split.
Qed.

Lemma Permutation_filter {A} (f : A -> bool) (l l' : list A) :
  Permutation l l' -> Permutation (filter f l) (filter f l').
Proof.
  induction 1 as [|x l l' _ IH|x y l|l l' l'' _ IH1 _ IH2]; simpl.
  - constructor.
  - destruct (f x); [now constructor | exact IH].
  - destruct (f x), (f y); try reflexivity. apply perm_swap.
  - now transitivity (filter f l').
Qed.

(** C2.  Let the platform's [sort.Slice] permute its slice and leave no
    element less than its predecessor, let a font directory be found, and
    let the walk of it meet no error.  Then discovery keeps exactly the
    entries that are not directories and whose name ends in [.flf] in any
    mix of cases; when there is none it fails, and otherwise it returns
    one font per kept file, whose name is the file name without that
    extension and whose preview is empty, in ascending order of names;
    and the names come out in the same order whatever the order in which
    the walk met the files.  A directory that holds [alpha.flf],
    [Zeta.FLF] and [notafont.txt] yields the names [Zeta], [alpha]. *)
Theorem findFigletFonts_lists_flf_files_sorted `{Platform}
    (log log' : Log) (fontDir : string) :
  (forall l, Permutation (sort_Slice lessByName l) l) ->
  (forall l, Sorted (fun a b => lessByName b a = false)
                    (sort_Slice lessByName l)) ->
  findFontDir log = Some (fontDir, log') ->
  fontDir <> "" ->
  Forall (fun v => visit_err v = None
                   /\ filepath.Base (visit_path v) = visit_name v)
         (filepath_WalkDir fontDir) ->
  let found := filter isFontFile (filepath_WalkDir fontDir) in
  (forall v, isFontFile v = true
             <-> visit_isDir v = false /\ endsInFlf (visit_name v))
  /\ (found = [] ->
      exists err, findFigletFonts log = Some (Err err, log'))
  /\ (found <> [] ->
      exists fonts,
        findFigletFonts log = Some (Ok fonts, log')
        /\ Permutation (map Path fonts) (map visit_path found)
        /\ Forall (fun f =>
                     PreviewRender f = ""
                     /\ exists ext,
                          In ext flfExtensions
                          /\ filepath.Base (Path f) = (Name f ++ ext)%string)
                  fonts
        /\ StronglySorted
             (fun a b => String.leb (Name a) (Name b) = true) fonts
        /\ forall visits',
             Permutation (filepath_WalkDir fontDir) visits' ->
             exists fonts',
               fontsOfWalk fontDir visits' = Ok fonts'
               /\ map Name fonts' = map Name fonts)
  /\ (forall visits',
        Permutation exampleVisits visits' ->
        exists fonts',
          fontsOfWalk fontDir visits' = Ok fonts'
          /\ map Name fonts' = ["Zeta"; "alpha"]).
Proof.
  intros Hperm Hsorted Hdir Hne Hvisits found.
  assert (Herr : Forall (fun v => visit_err v = None) (filepath_WalkDir fontDir))
    by (eapply Forall_impl; [|exact Hvisits]; simpl; tauto).
  assert (Hbase : Forall (fun v => filepath.Base (visit_path v) = visit_name v)
                         (filepath_WalkDir fontDir))
    by (eapply Forall_impl; [|exact Hvisits]; simpl; tauto).
  assert (Hrun : findFigletFonts log
                 = Some (fontsOfWalk fontDir (filepath_WalkDir fontDir), log')).
  { unfold findFigletFonts, bind. rewrite Hdir.
    apply String.eqb_neq in Hne. now rewrite Hne. }
  rewrite (fontsOfWalk_without_errors fontDir _ Herr) in Hrun. fold found in Hrun.
  split; [exact isFontFile_spec|]. split; [|split].
  - intros Hnil. rewrite Hnil in Hrun. eauto.
  - intros Hfound.
    set (unsorted := map fontOfPath (map visit_path found)).
    exists (sort_Slice lessByName unsorted).
    assert (Hpaths : map Path unsorted = map visit_path found).
    { unfold unsorted. rewrite map_map.
      rewrite <- (map_id (map visit_path found)) at 2.
      rewrite !map_map. reflexivity. }
    split.
    { destruct found; [congruence | exact Hrun]. }
    split.
    { rewrite <- Hpaths. apply Permutation_map, Hperm. }
    split.
    { eapply Permutation_Forall;
        [apply Permutation_sym, Hperm | apply found_fonts_well_named, Hbase]. }
    split; [apply sorted_by_name, Hsorted|].
    intros visits' Hp.
    assert (Herr' : Forall (fun v => visit_err v = None) visits')
      by (eapply Permutation_Forall; [exact Hp | exact Herr]).
    assert (Hfp : Permutation found (filter isFontFile visits'))
      by (apply Permutation_filter, Hp).
    rewrite (fontsOfWalk_without_errors fontDir _ Herr').
    destruct (filter isFontFile visits') as [|v vs] eqn:Hf'.
    { apply Permutation_sym, Permutation_nil in Hfp. congruence. }
    eexists. split; [reflexivity|].
    apply sorted_names_unique.
    + rewrite !Hperm. fold unsorted.
      unfold unsorted. apply Permutation_map, Permutation_map, Permutation_map.
      apply Permutation_sym, Hfp.
    + apply StronglySorted_map_Name, sorted_by_name, Hsorted.
    + apply StronglySorted_map_Name, sorted_by_name, Hsorted.
  - intros visits' Hp.
    assert (Herr' : Forall (fun v => visit_err v = None) visits')
      by (eapply Permutation_Forall; [exact Hp | repeat constructor]).
    assert (Hfp : Permutation (filter isFontFile exampleVisits)
                              (filter isFontFile visits'))
      by (apply Permutation_filter, Hp).
    rewrite (fontsOfWalk_without_errors fontDir _ Herr').
    destruct (filter isFontFile visits') as [|v vs] eqn:Hf'.
    { apply Permutation_sym, Permutation_nil in Hfp. discriminate. }
    eexists. split; [reflexivity|].
    apply sorted_names_unique.
    + rewrite Hperm.
      transitivity (map Name (map fontOfPath (map visit_path
                      (filter isFontFile exampleVisits)))).
      * apply Permutation_map, Permutation_map, Permutation_map.
        apply Permutation_sym, Hfp.
      * apply perm_swap.
    + apply StronglySorted_map_Name, sorted_by_name, Hsorted.
    + repeat constructor.
Qed.

Lemma findFigletFonts_demo_witness :
  exists fonts,
    @findFigletFonts demoPlatform []
    = Some (Ok fonts, [Command "figlet" ["-I"; "2"]])
    /\ map Name fonts = ["Zeta"; "alpha"].
Proof.
  destruct (@findFigletFonts_lists_flf_files_sorted demoPlatform
              [] [Command "figlet" ["-I"; "2"]] "/usr/share/figlet"
              (insertionSort_perm lessByName)
              (fun l => insertionSort_sorted lessByName l lessByName_asym)
              eq_refl)
    as (_ & _ & Hfound & _).
  - discriminate.
  - repeat constructor.
  - destruct Hfound as (fonts & Hrun & _); [discriminate|].
    exists fonts. split; [exact Hrun|].
    assert (E : @findFigletFonts demoPlatform []
                = Some (Ok [fontOfPath "/usr/share/figlet/Zeta.FLF";
                            fontOfPath "/usr/share/figlet/alpha.flf"],
                        [Command "figlet" ["-I"; "2"]]))
      by reflexivity.
    rewrite E in Hrun. injection Hrun as <-. reflexivity.
Defined.

(** C5 as stated fails for a negative budget: [lines[:maxLines]]
    panics. *)
Lemma truncateString_panics_on_negative_budget :
  truncateString "fontlet" (-1) = None.
Proof. reflexivity. Qed.

Lemma truncateString_witness :
  0 <= 2
  /\ exists out,
       truncateString ("a" ++ String LF (String LF "b")) 2 = Some out
       /\ out = "a".
Proof.
  split; [lia|].
  destruct (truncateString_total_bounded_stripped
              ("a" ++ String LF (String LF "b")) 2 ltac:(lia))
    as (out & Hrun & Hspec & _).
  exists out. split; [exact Hrun|]. rewrite Hspec. reflexivity.
Defined.

(* ===================================================================== *)
(** * Further properties of the code *)
(* ===================================================================== *)

(** ** More about [truncateString] *)

Lemma dropTrailingBlank_split lines :
  exists blanks,
    lines = dropTrailingBlank lines ++ blanks
    /\ Forall (fun l => isBlank l = true) blanks.
Proof.
  induction lines as [|x ls (blanks & Heq & Hb)] using rev_ind.
  - exists []. split; [reflexivity | constructor].
  - rewrite dropTrailingBlank_snoc. destruct (isBlank x) eqn:Hx.
    + exists (blanks ++ [x]). split.
      * rewrite app_assoc, <- Heq. reflexivity.
      * apply Forall_app. split; [exact Hb | now repeat constructor].
    + exists []. split; [now rewrite app_nil_r | constructor].
Qed.

Lemma dropTrailingBlank_app_blank kept blanks :
  Forall (fun l => isBlank l = true) blanks ->
  dropTrailingBlank (kept ++ blanks) = dropTrailingBlank kept.
Proof.
  induction blanks as [|b bs IH] using rev_ind; intros H.
  - now rewrite app_nil_r.
  - apply Forall_app in H as [Hbs Hb]. inversion Hb as [|? ? Hbb _]; subst.
    rewrite app_assoc, dropTrailingBlank_snoc, Hbb. now apply IH.
Qed.

Lemma Join_app_prefix (a b : list string) (sep : string) :
  exists rest,
    strings.Join (a ++ b) sep = (strings.Join a sep ++ rest)%string.
Proof.
  induction a as [|x a' IH].
  - exists (strings.Join b sep). reflexivity.
  - destruct a' as [|y a''].
    + destruct b as [|z b'].
      * exists "". simpl. now rewrite string_app_nil_r.
      * exists (sep ++ strings.Join (z :: b') sep)%string. reflexivity.
    + destruct IH as (rest & Hrest). exists rest.
      change (strings.Join ((x :: y :: a'') ++ b) sep)
        with (x ++ sep ++ strings.Join ((y :: a'') ++ b) sep)%string.
      rewrite Hrest.
      change (strings.Join (x :: y :: a'') sep)
        with (x ++ sep ++ strings.Join (y :: a'') sep)%string.
      now rewrite !string_app_assoc.
Qed.

(** X1.  Truncation drops nothing but blank lines from the first [n] lines:
    these lines are the kept ones followed by blank ones only. *)
Theorem truncateString_drops_only_blank_lines (s : string) (n : Z) :
  0 <= n ->
  exists kept blanks,
    truncateString s n = Some (strings.Join kept (String LF ""))
    /\ firstn (Z.to_nat n) (strings.Split s LF) = kept ++ blanks
    /\ Forall allSpace blanks
    /\ (kept = [] \/ ~ allSpace (last kept "")).
Proof.
  intros Hn.
  set (prefix := firstn (Z.to_nat n) (strings.Split s LF)).
  destruct (dropTrailingBlank_split prefix) as (blanks & Heq & Hb).
  exists (dropTrailingBlank prefix), blanks.
  split; [now apply truncateString_refines|].
  split; [exact Heq|]. split; [now apply Forall_isBlank_allSpace|].
  destruct (dropTrailingBlank prefix) as [|k ks] eqn:Hk; [now left|].
  right. rewrite <- Hk. intros Ha. apply isBlank_allSpace in Ha.
  rewrite dropTrailingBlank_last in Ha; [discriminate|].
  rewrite Hk. discriminate.
Qed.

Lemma truncateString_drops_only_blank_lines_witness :
  0 <= 3
  /\ exists kept blanks,
       truncateString ("a" ++ String LF (" " ++ String LF "b")) 2
       = Some (strings.Join kept (String LF ""))
       /\ firstn 2 (strings.Split ("a" ++ String LF (" " ++ String LF "b")) LF)
          = kept ++ blanks
       /\ Forall allSpace blanks.
Proof.
  split; [lia|].
  destruct (truncateString_drops_only_blank_lines
              ("a" ++ String LF (" " ++ String LF "b")) 2 ltac:(lia))
    as (kept & blanks & H1 & H2 & H3 & _).
  exists kept, blanks. repeat split; assumption.
Defined.

(** X2.  The result of truncation is a prefix of the text: truncation never
    changes, reorders or invents characters. *)
Theorem truncateString_is_prefix (s : string) (n : Z) :
  0 <= n ->
  exists out rest,
    truncateString s n = Some out /\ s = (out ++ rest)%string.
Proof.
  intros Hn. exists (truncate_spec s (Z.to_nat n)).
  set (lines := strings.Split s LF).
  destruct (dropTrailingBlank_split (firstn (Z.to_nat n) lines))
    as (blanks & Heq & _).
  destruct (Join_app_prefix
              (dropTrailingBlank (firstn (Z.to_nat n) lines))
              (blanks ++ skipn (Z.to_nat n) lines) (String LF ""))
    as (rest & Hrest).
  exists rest. split; [now apply truncateString_refines|].
  unfold truncate_spec. fold lines. rewrite <- Hrest.
  rewrite app_assoc, <- Heq, firstn_skipn. unfold lines.
  symmetry. apply Join_Split.
Qed.

Lemma truncateString_is_prefix_witness :
  0 <= 1
  /\ exists out rest,
       truncateString ("a" ++ String LF "b") 1 = Some out
       /\ ("a" ++ String LF "b")%string = (out ++ rest)%string.
Proof.
  split; [lia|].
  exact (truncateString_is_prefix ("a" ++ String LF "b") 1 ltac:(lia)).
Defined.

(** X3.  A text within the budget whose last line is not white space
    only, nor empty, comes back unchanged. *)
Theorem truncateString_keeps_short_text (s : string) (n : Z) :
  Z.of_nat (lineCount s) <= n ->
  ~ allSpace (last (strings.Split s LF) "") ->
  truncateString s n = Some s.
Proof.
  intros Hlen Hlast. apply isBlank_false in Hlast. unfold lineCount in Hlen.
  pose proof (Split_length_pos s LF) as Hpos.
  rewrite truncateString_refines by lia. f_equal.
  unfold truncate_spec. rewrite firstn_all2 by lia.
  rewrite dropTrailingBlank_fixed;
    [apply Join_Split | apply Split_not_nil | exact Hlast].
Qed.

Lemma truncateString_keeps_short_text_witness :
  truncateString ("a" ++ String LF "b") 11 = Some ("a" ++ String LF "b")%string.
Proof.
  apply truncateString_keeps_short_text; [vm_compute; discriminate|].
  intros Ha. apply isBlank_allSpace in Ha. discriminate Ha.
Defined.

Lemma truncate_spec_empty (n : nat) : truncate_spec "" n = "".
Proof. unfold truncate_spec. destruct n as [|[|m]]; reflexivity. Qed.

(** X4.  Truncating twice is truncating once with the smaller budget. *)
Theorem truncateString_twice_is_min (s : string) (n m : Z) :
  0 <= n -> 0 <= m ->
  exists out,
    truncateString s n = Some out
    /\ truncateString out m = truncateString s (Z.min n m).
Proof.
  intros Hn Hm. exists (truncate_spec s (Z.to_nat n)).
  split; [now apply truncateString_refines|].
  rewrite !truncateString_refines by lia. f_equal.
  set (lines := strings.Split s LF).
  set (prefix := firstn (Z.to_nat n) lines).
  assert (Hmin : firstn (Z.to_nat (Z.min n m)) lines
                 = firstn (Z.to_nat m) prefix).
  { unfold prefix. rewrite firstn_firstn. f_equal. lia. }
  destruct (dropTrailingBlank_split prefix) as (blanks & Heq & Hb).
  assert (Hcut : dropTrailingBlank (firstn (Z.to_nat m) prefix)
                 = dropTrailingBlank
                     (firstn (Z.to_nat m) (dropTrailingBlank prefix))).
  { rewrite Heq at 1. rewrite firstn_app.
    apply dropTrailingBlank_app_blank, Forall_take, Hb. }
  unfold truncate_spec at 3. fold lines. rewrite Hmin, Hcut.
  destruct (dropTrailingBlank prefix) as [|k ks] eqn:Hk.
  - rewrite (truncate_spec_nil s (Z.to_nat n) Hk), truncate_spec_empty.
    now rewrite firstn_nil.
  - assert (Hne : dropTrailingBlank prefix <> []) by (rewrite Hk; discriminate).
    unfold truncate_spec at 1.
    rewrite (truncate_spec_lines s (Z.to_nat n) Hne). fold lines prefix.
    now rewrite Hk.
Qed.

Lemma truncateString_twice_is_min_witness :
  0 <= 3 /\ 0 <= 1
  /\ exists out,
       truncateString ("a" ++ String LF ("b" ++ String LF "c")) 3 = Some out
       /\ truncateString out 1
          = truncateString ("a" ++ String LF ("b" ++ String LF "c")) (Z.min 3 1).
Proof.
  split; [lia|]. split; [lia|].
  exact (truncateString_twice_is_min
           ("a" ++ String LF ("b" ++ String LF "c")) 3 1
           ltac:(lia) ltac:(lia)).
Defined.

(** ** What the preview batch runs *)

Lemma wrap_int_in_range (z : Z) :
  - 2 ^ 63 <= z < 2 ^ 63 -> wrap_int z = z.
Proof. intros H. unfold wrap_int. rewrite Z.mod_small; lia. Qed.

Lemma runFiglet_calls `{Platform} figletCmdPath fontPath text width log :
  exists r calls,
    runFiglet figletCmdPath fontPath text width log = Some (r, log ++ calls)
    /\ (calls = [Command figletCmdPath
                   ["-f"; fontPath; "-w"; Sprintf_d width; text]]
        \/ calls = [Command figletCmdPath
                      ["-f"; fontPath; "-w"; Sprintf_d width; text];
                    Command figletCmdPath ["-f"; fontPath; text]]).
Proof.
  rewrite runFiglet_unfold.
  destruct (exec_Output log _); [eauto|].
  destruct (exec_Output (log ++ _) _); eauto.
Qed.

Lemma previewOf_calls `{Platform} figletCmdPath inputText width font log :
  exists p calls,
    previewOf figletCmdPath inputText width font log = Some (p, log ++ calls)
    /\ (calls = [Command figletCmdPath
                   ["-f"; Path font; "-w"; Sprintf_d width; inputText]]
        \/ calls = [Command figletCmdPath
                      ["-f"; Path font; "-w"; Sprintf_d width; inputText];
                    Command figletCmdPath ["-f"; Path font; inputText]]).
Proof.
  destruct (runFiglet_calls figletCmdPath (Path font) inputText width log)
    as (r & calls & Hr & Hcalls).
  unfold previewOf, bind. rewrite Hr. destruct r as [output|err].
  - rewrite truncateString_refines by (unfold previewLines; lia).
    simpl. do 2 eexists. split; [reflexivity | exact Hcalls].
  - simpl. do 2 eexists. split; [reflexivity | exact Hcalls].
Qed.

(** X5.  The preview batch runs nothing but the figlet found at
    startup, and runs it font by font, in the order of the session's
    fonts: for each font one call with a width, followed or not by one
    call without a width, both for the path of that font and the
    confirmed text.  The width is at least 20 columns, and is the
    terminal width less 20 when the terminal is at least 40 columns
    wide. *)
Theorem generatePreviewsCmd_runs_only_figlet `{Platform} `{Bubbles}
    (m : model) (log : Log) :
  exists width msg perFont,
    generatePreviewsCmd m log = Some (msg, log ++ concat perFont)
    /\ 20 <= width
    /\ (40 <= termWidth m < 2 ^ 63 -> width = termWidth m - 20)
    /\ Forall2
         (fun font calls =>
            let withWidth :=
              Command (figletCmdPath m)
                ["-f"; Path font; "-w"; Sprintf_d width; inputText m] in
            let withoutWidth :=
              Command (figletCmdPath m) ["-f"; Path font; inputText m] in
            calls = [withWidth] \/ calls = [withWidth; withoutWidth])
         (fonts m) perFont.
Proof.
  set (width := if int_sub (termWidth m) 20 <? 20 then 20
                else int_sub (termWidth m) 20).
  exists width.
  assert (Hloop : forall fs log0,
             exists ps perFont,
               forEach (previewOf (figletCmdPath m) (inputText m) width)
                       fs log0 = Some (ps, log0 ++ concat perFont)
               /\ Forall2
                    (fun font calls =>
                       calls = [Command (figletCmdPath m)
                                  ["-f"; Path font; "-w"; Sprintf_d width;
                                   inputText m]]
                       \/ calls = [Command (figletCmdPath m)
                                     ["-f"; Path font; "-w"; Sprintf_d width;
                                      inputText m];
                                   Command (figletCmdPath m)
                                     ["-f"; Path font; inputText m]])
                    fs perFont).
  { induction fs as [|font rest IH]; intros log0; simpl.
    - exists [], []. simpl. rewrite app_nil_r. split; [reflexivity | constructor].
    - unfold bind.
      destruct (previewOf_calls (figletCmdPath m) (inputText m) width font log0)
        as (p & c1 & Hp & Hc1).
      rewrite Hp. destruct (IH (log0 ++ c1)) as (ps & c2 & Hps & Hall).
      rewrite Hps. exists (p :: ps), (c1 :: c2).
      split; [simpl; now rewrite app_assoc | now constructor]. }
  destruct (Hloop (fonts m) log) as (ps & perFont & Hps & Hall).
  exists (previewsGeneratedMsg ps), perFont.
  split.
  { unfold generatePreviewsCmd, bind. fold width. now rewrite Hps. }
  split.
  { unfold width. destruct (int_sub (termWidth m) 20 <? 20) eqn:E;
      [lia | apply Z.ltb_ge in E; exact E]. }
  split; [|exact Hall].
  intros Hw. unfold width, int_sub.
  rewrite wrap_int_in_range by lia.
  destruct (termWidth m - 20 <? 20) eqn:E; [apply Z.ltb_lt in E; lia | reflexivity].
Qed.

Lemma generatePreviewsCmd_runs_only_figlet_witness :
  40 <= 80 < 2 ^ 63
  /\ exists msg perFont,
       @generatePreviewsCmd demoPlatform plainBubbles
         (demoModel stateLoadingPreviews "") [] = Some (msg, concat perFont)
       /\ List.length perFont = 1%nat.
Proof.
  split; [lia|].
  destruct (@generatePreviewsCmd_runs_only_figlet demoPlatform plainBubbles
              (demoModel stateLoadingPreviews "") [])
    as (width & msg & perFont & Hrun & _ & _ & Hall).
  exists msg, perFont. split; [exact Hrun|].
  apply Forall2_length in Hall. symmetry. exact Hall.
Defined.

(** ** More about font discovery *)

Lemma commonDirs_not_empty d : In d commonDirs -> d <> "".
Proof.
  unfold commonDirs. simpl. intros H.
  repeat (destruct H as [<- | H]; [discriminate|]). contradiction.
Qed.

Lemma findFontDir_cases `{Platform} (log : Log) :
  exists fontDir,
    findFontDir log = Some (fontDir, log ++ [Command "figlet" ["-I"; "2"]])
    /\ (fontDir = "" \/ os_isDir fontDir = true)
    /\ (fontDir = "" -> forall d, In d commonDirs -> os_isDir d = false).
Proof.
  unfold findFontDir, bind, Output, ret.
  set (queried :=
         match exec_Output log (Command "figlet" ["-I"; "2"]) with
         | Ok output =>
             if os_isDir (filepath_Join (strings.TrimSpace output) "fonts")
             then filepath_Join (strings.TrimSpace output) "fonts"
             else if negb (os_isDir (strings.TrimSpace output)) then ""
                  else strings.TrimSpace output
         | Err _ => ""
         end).
  assert (Hq : queried = "" \/ os_isDir queried = true).
  { unfold queried. destruct (exec_Output log _) as [output|]; [|now left].
    destruct (os_isDir (filepath_Join _ _)) eqn:E1; [now right|].
    destruct (os_isDir (strings.TrimSpace output)) eqn:E2; simpl; auto. }
  eexists. split; [reflexivity|].
  destruct (String.eqb queried "") eqn:Eq.
  - destruct (find os_isDir commonDirs) as [d|] eqn:Ef.
    + apply find_some in Ef as [Hin Hd]. split; [now right|].
      intros ->. now apply commonDirs_not_empty in Hin.
    + split; [now left|]. intros _ d Hin.
      exact (find_none _ _ Ef d Hin).
  - apply String.eqb_neq in Eq. split; [tauto|]. congruence.
Qed.

(** X6.  The directory that discovery settles on is an existing directory, or
    empty; it is empty only when none of the conventional directories
    exists.  Finding it takes the one call [figlet -I 2]. *)
Theorem findFontDir_returns_a_directory `{Platform} (log : Log) :
  exists fontDir,
    findFontDir log = Some (fontDir, log ++ [Command "figlet" ["-I"; "2"]])
    /\ (fontDir = "" \/ os_isDir fontDir = true)
    /\ (fontDir = "" -> forall d, In d commonDirs -> os_isDir d = false).
Proof. apply findFontDir_cases. Qed.

(** X7.  Without any directory to look into, discovery fails with
    "could not find figlet font directory". *)
Theorem findFigletFonts_without_directory `{Platform} (log : Log) :
  (forall p, os_isDir p = false) ->
  findFigletFonts log
  = Some (Err "could not find figlet font directory",
          log ++ [Command "figlet" ["-I"; "2"]]).
Proof.
  intros Hno.
  destruct (findFontDir_cases log) as (dir & Hdir & [-> | Hd] & _).
  - unfold findFigletFonts, bind. now rewrite Hdir.
  - rewrite Hno in Hd. discriminate.
Qed.

Lemma findFigletFonts_without_directory_witness :
  @findFigletFonts barePlatform []
  = Some (Err "could not find figlet font directory",
          [Command "figlet" ["-I"; "2"]]).
Proof.
  apply (@findFigletFonts_without_directory barePlatform []). reflexivity.
Defined.

Lemma WalkDir_stops_at_error before v rest err :
  Forall (fun w => visit_err w = None) before ->
  visit_err v = Some err ->
  forall fontPaths,
    snd (WalkDir (before ++ v :: rest) fontPaths) = Some err.
Proof.
  intros Hb Hv. induction Hb as [|w ws Hw _ IH]; intros fontPaths; simpl.
  - unfold walkFn. now rewrite Hv.
  - unfold walkFn at 1. rewrite Hw. destruct (isFontFile w); apply IH.
Qed.

(** X8.  An error met during the walk of the font directory fails the whole
    discovery, whatever fonts were found before it. *)
Theorem findFigletFonts_fails_on_walk_error `{Platform}
    (log log' : Log) (fontDir : string)
    (before rest : list Visit) (v : Visit) (err : error) :
  findFontDir log = Some (fontDir, log') ->
  fontDir <> "" ->
  filepath_WalkDir fontDir = before ++ v :: rest ->
  Forall (fun w => visit_err w = None) before ->
  visit_err v = Some err ->
  findFigletFonts log
  = Some (Err ("error walking font directory " ++ fontDir ++ ": " ++ err)%string,
          log').
Proof.
  intros Hdir Hne Hwalk Hb Hv.
  unfold findFigletFonts, bind. rewrite Hdir.
  apply String.eqb_neq in Hne. rewrite Hne. unfold ret, fontsOfWalk.
  rewrite Hwalk.
  pose proof (WalkDir_stops_at_error before v rest err Hb Hv []) as Hstop.
  destruct (WalkDir (before ++ v :: rest) []) as [paths [e|]];
    simpl in Hstop; [|discriminate].
  injection Hstop as ->. reflexivity.
Qed.

Lemma findFigletFonts_fails_on_walk_error_witness :
  @findFigletFonts brokenPlatform []
  = Some (Err "error walking font directory /usr/share/figlet: permission denied",
          [Command "figlet" ["-I"; "2"]]).
Proof.
  apply (@findFigletFonts_fails_on_walk_error brokenPlatform
           [] [Command "figlet" ["-I"; "2"]] "/usr/share/figlet"
           [ {| visit_path := "/usr/share/figlet/alpha.flf";
                visit_name := "alpha.flf";
                visit_isDir := false; visit_err := None |} ]
           [ {| visit_path := "/usr/share/figlet/zeta.flf";
                visit_name := "zeta.flf";
                visit_isDir := false; visit_err := None |} ]
           {| visit_path := "/usr/share/figlet/private";
              visit_name := "private";
              visit_isDir := true; visit_err := Some "permission denied" |}
           "permission denied").
  - reflexivity.
  - discriminate.
  - reflexivity.
  - repeat constructor.
  - reflexivity.
Defined.

Lemma fontsOfWalk_result `{Platform} fontDir visits :
  (exists err, fontsOfWalk fontDir visits = Err err /\ err <> "")
  \/ (exists paths,
        paths <> []
        /\ fontsOfWalk fontDir visits
           = Ok (sort_Slice lessByName (map fontOfPath paths))).
Proof.
  unfold fontsOfWalk. destruct (WalkDir visits []) as [paths [e|]].
  - left. eexists. split; [reflexivity | discriminate].
  - destruct paths as [|p ps]; simpl.
    + left. eexists. split; [reflexivity | discriminate].
    + right. exists (p :: ps). split; [discriminate | reflexivity].
Qed.

(** X9.  When discovery succeeds it returns at least one font, and every font
    it returns has an empty preview. *)
Theorem findFigletFonts_never_returns_no_font `{Platform}
    (log log' : Log) (fonts : list fontMetadata) :
  (forall l, Permutation (sort_Slice lessByName l) l) ->
  findFigletFonts log = Some (Ok fonts, log') ->
  fonts <> [] /\ Forall (fun f => PreviewRender f = "") fonts.
Proof.
  intros Hperm Hrun. unfold findFigletFonts, bind in Hrun.
  destruct (findFontDir log) as [[dir log1]|]; [|discriminate].
  destruct (String.eqb dir ""); [discriminate|].
  unfold ret in Hrun. injection Hrun as Hrun _.
  destruct (fontsOfWalk_result dir (filepath_WalkDir dir))
    as [(err & He & _) | (paths & Hne & Hok)]; [congruence|].
  rewrite Hok in Hrun. injection Hrun as <-. split.
  - intros Hnil. specialize (Hperm (map fontOfPath paths)).
    rewrite Hnil in Hperm. apply Permutation_nil in Hperm.
    destruct paths; [congruence | discriminate].
  - eapply Permutation_Forall; [apply Permutation_sym, Hperm|].
    apply Forall_forall. intros f Hf.
    apply in_map_iff in Hf as (p0 & <- & _). reflexivity.
Qed.

Lemma findFigletFonts_never_returns_no_font_witness :
  [fontOfPath "/usr/share/figlet/Zeta.FLF";
   fontOfPath "/usr/share/figlet/alpha.flf"] <> [].
Proof.
  apply (@findFigletFonts_never_returns_no_font demoPlatform
           [] [Command "figlet" ["-I"; "2"]] _
           (insertionSort_perm lessByName) eq_refl).
Defined.

(** ** The tasks and the controller together *)

Lemma findFigletFonts_returns `{Platform} (log : Log) :
  exists r,
    findFigletFonts log = Some (r, log ++ [Command "figlet" ["-I"; "2"]])
    /\ ((exists err, r = Err err /\ err <> "")
        \/ (exists paths,
              paths <> []
              /\ r = Ok (sort_Slice lessByName (map fontOfPath paths)))).
Proof.
  destruct (findFontDir_cases log) as (dir & Hdir & _).
  unfold findFigletFonts, bind. rewrite Hdir.
  destruct (String.eqb dir "").
  - eexists. split; [reflexivity|]. left. eexists. split; [reflexivity|].
    discriminate.
  - eexists. split; [reflexivity|].
    destruct (fontsOfWalk_result dir (filepath_WalkDir dir))
      as [(err & -> & He) | (paths & Hne & ->)]; eauto.
Qed.

(** X10.  Startup.  The discovery task always resolves, and its message takes
    the session to InputText with at least one font, or to Error with a
    message that is not empty; it never leaves the session elsewhere. *)
Theorem discovery_leads_to_input_or_error `{Platform} `{Bubbles}
    (m : model) (log : Log) :
  (forall l, Permutation (sort_Slice lessByName l) l) ->
  exists msg log',
    loadInitialFontsCmd log = Some (msg, log')
    /\ let after := fst (Update m msg) in
       (state after = stateInputText /\ fonts after <> []
        /\ msg = initialResourcesLoadedMsg (fonts after)
        /\ errorMessage after = errorMessage m)
       \/ (state after = stateError /\ errorMessage after <> ""
           /\ msg = errorMsg (errorMessage after)
           /\ fonts after = fonts m).
Proof.
  intros Hperm.
  destruct (findFigletFonts_returns log)
    as (r & Hr & [(err & -> & He) | (paths & Hne & ->)]);
    unfold loadInitialFontsCmd, bind; rewrite Hr; simpl;
    do 2 eexists; (split; [reflexivity|]); simpl.
  - right. repeat split; assumption.
  - left. repeat split; try reflexivity.
    intros Hnil. specialize (Hperm (map fontOfPath paths)).
    rewrite Hnil in Hperm. apply Permutation_nil in Hperm.
    destruct paths; [congruence | discriminate].
Qed.

Lemma discovery_leads_to_input_or_error_witness :
  exists msg log',
    @loadInitialFontsCmd demoPlatform [] = Some (msg, log')
    /\ state (fst (Update (demoModel stateInitialLoading "") msg))
       = stateInputText.
Proof.
  destruct (@discovery_leads_to_input_or_error demoPlatform plainBubbles
              (demoModel stateInitialLoading "") []
              (insertionSort_perm lessByName))
    as (msg & log' & Hrun & _).
  exists msg, log'. split; [exact Hrun|].
  assert (E : @loadInitialFontsCmd demoPlatform []
              = Some (initialResourcesLoadedMsg
                        [fontOfPath "/usr/share/figlet/Zeta.FLF";
                         fontOfPath "/usr/share/figlet/alpha.flf"],
                      [Command "figlet" ["-I"; "2"]]))
    by reflexivity.
  rewrite E in Hrun. injection Hrun as <- _. reflexivity.
Defined.

(** X11.  The full rendering always resolves, after one run of
    [runFiglet] for the font, the text and a width of at least 20.  When
    that run returns an output, the message carries this very output and
    takes the session to OutputChoice, holding the output and the prompt
    for the choice.  When it returns an error, the message carries the
    error after the words "failed to run figlet for full output: " and
    takes the session to Error, which keeps the output it held
    before. *)
Theorem full_render_leads_to_choice_or_error `{Platform} `{Bubbles}
    (snapshot m : model) (fontPath text : string) (log : Log) :
  exists width r msg log',
    20 <= width
    /\ runFiglet (figletCmdPath snapshot) fontPath text width log
       = Some (r, log')
    /\ renderFullFigletCmd snapshot fontPath text log = Some (msg, log')
    /\ let after := fst (Update m msg) in
       match r with
       | Ok output =>
           msg = fullFigletRenderedMsg output
           /\ state after = stateOutputChoice
           /\ fullFigletOutput after = output
           /\ statusMessage after = "Output to (t)erminal or save to (f)ile?"
       | Err err =>
           msg = errorMsg
                   ("failed to run figlet for full output: " ++ err)%string
           /\ state after = stateError
           /\ errorMessage after
              = ("failed to run figlet for full output: " ++ err)%string
           /\ fullFigletOutput after = fullFigletOutput m
       end.
Proof.
  set (width :=
         if int_sub (int_sub (termWidth snapshot) docStyle_HorizontalFrameSize) 4
            <? 20
         then 20
         else int_sub (int_sub (termWidth snapshot) docStyle_HorizontalFrameSize)
                      4).
  destruct (runFiglet_returns (figletCmdPath snapshot) fontPath text width log)
    as (r & log1 & Hr).
  exists width, r.
  exists (match r with
          | Ok output => fullFigletRenderedMsg output
          | Err err =>
              errorMsg ("failed to run figlet for full output: " ++ err)%string
          end), log1.
  split.
  { unfold width.
    destruct (_ <? 20) eqn:E; [lia | apply Z.ltb_ge in E; exact E]. }
  split; [exact Hr|]. split.
  { unfold renderFullFigletCmd, bind. fold width. rewrite Hr.
    destruct r; reflexivity. }
  destruct r; repeat split.
Qed.

(** X12.  Saving.  In SaveFilenameInput, Enter on a name that is not
    empty or white space only issues one save of the full output under
    the trimmed name and stays on the screen.  When the write succeeds the session shows "Saved to
    <name>!" on the status screen; when it fails the session goes to
    Error with the name and the reason. *)
Theorem save_leads_to_status_or_error `{Platform} `{Bubbles}
    (m : model) (k : KeyMsg) (log : Log) :
  state m = stateSaveFileNameInput ->
  Type_ k = KeyEnter ->
  ~ allSpace (textinput_Value (textInput m)) ->
  let filename := strings.TrimSpace (textinput_Value (textInput m)) in
  exists m1 task msg,
    Update m (tea_KeyMsg k)
    = (m1, tea_Batch [cmd_saveToFile m1 filename (fullFigletOutput m)])
    /\ trimmedOf (textinput_Value (textInput m)) filename
    /\ state m1 = stateSaveFileNameInput
    /\ taskOf (cmd_saveToFile m1 filename (fullFigletOutput m)) = Some task
    /\ task log = Some (msg, log)
    /\ match os_WriteFile filename (fullFigletOutput m) with
       | None =>
           msg = fileSavedMsg filename
           /\ state (fst (Update m1 msg)) = stateShowStatusMessage
           /\ statusMessage (fst (Update m1 msg))
              = successStyle_Render ("Saved to " ++ filename ++ "!")%string
       | Some err =>
           msg = errorMsg
                   ("failed to save file '" ++ filename ++ "': " ++ err)%string
           /\ state (fst (Update m1 msg)) = stateError
           /\ errorMessage (fst (Update m1 msg))
              = ("failed to save file '" ++ filename ++ "': " ++ err)%string
       end.
Proof.
  intros Hs Hk Hspace filename.
  assert (Hne : strings.TrimSpace (textinput_Value (textInput m)) <> "")
    by (intros E; now apply Hspace, TrimSpace_empty_iff).
  rewrite Update_key, (Enter_is_not_quit k Hk).
  unfold UpdateKey. rewrite Hs, Hk. cbv zeta. fold filename.
  apply String.eqb_neq in Hne. fold filename in Hne. rewrite Hne.
  cbn [negb KeyType_eqb].
  exists (set_textInput m (textinput_Blur (textInput m))),
         (saveToFileCmd filename (fullFigletOutput m)),
         (match os_WriteFile filename (fullFigletOutput m) with
          | Some err =>
              errorMsg
                ("failed to save file '" ++ filename ++ "': " ++ err)%string
          | None => fileSavedMsg filename
          end).
  split; [reflexivity|]. split; [apply TrimSpace_trimmedOf|].
  split; [exact Hs|]. split; [reflexivity|].
  unfold saveToFileCmd.
  destruct (os_WriteFile filename (fullFigletOutput m)) as [err|];
    (split; [reflexivity|]); repeat split.
Qed.

Lemma save_leads_to_status_or_error_witness :
  exists m1 cmd,
    Update (demoModel stateSaveFileNameInput " out.txt ")
           (tea_KeyMsg (pressed KeyEnter)) = (m1, cmd)
    /\ state m1 = stateSaveFileNameInput.
Proof.
  destruct (@save_leads_to_status_or_error demoPlatform plainBubbles
              (demoModel stateSaveFileNameInput " out.txt ")
              (pressed KeyEnter) [] eq_refl eq_refl)
    as (m1 & task & msg & Hup & _ & Hst & _).
  - intros Ha. apply TrimSpace_empty_iff in Ha. discriminate Ha.
  - do 2 eexists. split; [exact Hup | exact Hst].
Defined.

(** ** What the controller never does *)

(** Case analysis on every test and every widget call of [Update]. *)
Ltac split_branches :=
  repeat (cbv beta iota zeta;
          match goal with
          | |- context [if ?b then _ else _] => destruct b eqn:?
          | |- context [match ?o with Some _ => _ | None => _ end] =>
              destruct o eqn:?
          | |- context [let (_, _) := ?p in _] => destruct p eqn:?
          end);
  cbv beta iota zeta.

Lemma keyStep_refl s : keyStep s s = true.
Proof. destruct s; reflexivity. Qed.

(** X13.  A key moves the session only along the edges of the screen graph: it
    never leaves a loading screen or the Error screen for another
    screen, and from every other screen it reaches only the screens
    listed in [keyStep]. *)
Theorem key_moves_along_screen_graph `{Bubbles} (m : model) (k : KeyMsg) :
  keyStep (state m) (state (fst (Update m (tea_KeyMsg k)))) = true.
Proof.
  rewrite Update_key.
  destruct (key_Matches k ["ctrl+c"]); [apply keyStep_refl|].
  unfold UpdateKey.
  destruct (state m) eqn:Hs; split_branches; simpl; rewrite ?Hs; reflexivity.
Qed.

(** X14.  Keys never touch the font list, the terminal size, the rendered
    output, the error message or the path of the tool. *)
Theorem keys_leave_data_alone `{Bubbles} (m : model) (k : KeyMsg) :
  let after := fst (Update m (tea_KeyMsg k)) in
  fonts after = fonts m
  /\ termWidth after = termWidth m
  /\ termHeight after = termHeight m
  /\ fullFigletOutput after = fullFigletOutput m
  /\ errorMessage after = errorMessage m
  /\ figletCmdPath after = figletCmdPath m.
Proof.
  rewrite Update_key.
  destruct (key_Matches k ["ctrl+c"]); [repeat split|].
  unfold UpdateKey.
  destruct (state m); split_branches; repeat split.
Qed.

(** X15.  [Update] asks the runtime to quit, by [tea.Quit] alone or in
    its batch, on these occasions only: a key that reads [ctrl+c]; on the
    Error screen a key that reads [q], [esc] or [enter]; and when the
    widget that is given the message returns [tea.Quit] itself, the
    text input, the font list or the viewport for a key on their
    screens, the spinner for its tick.  No task result and no resize
    ever quits. *)
Theorem Update_quits_only_by_key_or_widget `{Bubbles} (m : model) (msg : Msg) :
  asksToQuit (snd (Update m msg)) = true ->
  (exists k,
      msg = tea_KeyMsg k
      /\ (key_Matches k ["ctrl+c"] = true
          \/ (state m = stateError
              /\ key_Matches k ["q"; "esc"; "enter"] = true)
          \/ ((state m = stateInputText \/ state m = stateSaveFileNameInput)
              /\ snd (textinput_Update (textInput m) k) = lib_Quit)
          \/ (state m = stateSelectFontWithPreview
              /\ snd (list_Update (fontList m) k) = lib_Quit)
          \/ (state m = stateDisplayFiglet
              /\ snd (viewport_Update (figletViewport m) k) = lib_Quit)))
  \/ (exists id tag,
         msg = spinner_TickMsg id tag
         /\ snd (spinner_Update (spinner m) id tag) = lib_Quit).
Proof.
  assert (Hw : forall w : LibCmd widget_Cmd,
             asksToQuit (tea_Cmd_of w) = true -> w = lib_Quit)
    by (intros [| |c]; simpl; congruence).
  destruct msg as [w h|id tag|fs|fs|out|path|err| |k|];
    try (unfold Update; split_branches; cbn; discriminate).
  - unfold Update. split_branches; cbn; try discriminate.
    rewrite orb_false_r. intros Hq. apply Hw in Hq. subst.
    right. exists id, tag. split; [reflexivity|].
    match goal with E : spinner_Update _ _ _ = _ |- _ => now rewrite E end.
  - rewrite Update_key.
    destruct (key_Matches k ["ctrl+c"]) eqn:Hq; [intros _; left; eauto|].
    unfold UpdateKey.
    destruct (state m) eqn:Hs; split_branches; cbn;
      rewrite ?orb_false_r; try discriminate; intros Hquit;
      try (apply Hw in Hquit; subst);
      left; exists k; (split; [reflexivity|]);
      repeat match goal with
             | E : _ = (_, lib_Quit) |- _ =>
                 cbn in E; apply (f_equal snd) in E; cbn [snd] in E
             end;
      tauto.
Qed.

Lemma Update_quits_only_by_key_or_widget_witness :
  (exists k,
      tea_KeyMsg (typed "q") = tea_KeyMsg k
      /\ (key_Matches k ["ctrl+c"] = true
          \/ (state (demoModel stateSelectFontWithPreview "") = stateError
              /\ key_Matches k ["q"; "esc"; "enter"] = true)
          \/ ((state (demoModel stateSelectFontWithPreview "")
               = stateInputText
               \/ state (demoModel stateSelectFontWithPreview "")
                  = stateSaveFileNameInput)
              /\ snd (textinput_Update
                        (textInput (demoModel stateSelectFontWithPreview ""))
                        k) = lib_Quit)
          \/ (state (demoModel stateSelectFontWithPreview "")
              = stateSelectFontWithPreview
              /\ snd (list_Update
                        (fontList (demoModel stateSelectFontWithPreview ""))
                        k) = lib_Quit)
          \/ (state (demoModel stateSelectFontWithPreview "")
              = stateDisplayFiglet
              /\ snd (viewport_Update
                        (figletViewport
                           (demoModel stateSelectFontWithPreview "")) k)
                 = lib_Quit)))
  \/ (exists id tag,
         tea_KeyMsg (typed "q") = spinner_TickMsg id tag
         /\ snd (spinner_Update
                   (spinner (demoModel stateSelectFontWithPreview ""))
                   id tag) = lib_Quit).
Proof.
  apply (@Update_quits_only_by_key_or_widget plainBubbles
           (demoModel stateSelectFontWithPreview "")
           (tea_KeyMsg (typed "q"))).
  reflexivity.
Defined.

(** X16.  While the session is loading, a key other than [ctrl+c] is dropped:
    nothing changes and nothing is issued. *)
Theorem loading_screens_drop_keys `{Bubbles} (m : model) (k : KeyMsg) :
  isSpinning (state m) = true ->
  key_Matches k ["ctrl+c"] = false ->
  Update m (tea_KeyMsg k) = (m, tea_Batch []).
Proof.
  intros Hs Hq. rewrite Update_key, Hq. unfold UpdateKey.
  destruct (state m); try discriminate; reflexivity.
Qed.

Lemma loading_screens_drop_keys_witness :
  Update (demoModel stateLoadingPreviews "") (tea_KeyMsg (pressed KeyEnter))
  = (demoModel stateLoadingPreviews "", tea_Batch []).
Proof.
  apply (@loading_screens_drop_keys plainBubbles); reflexivity.
Defined.

(** X17.  A resize is recorded and changes nothing else that the user entered
    or the tasks produced: not the screen, the fonts, the text, the
    selection, the output or the messages; and it issues nothing. *)
Theorem resize_is_recorded_only `{Bubbles} (m : model) (w h : Z) :
  let after := fst (Update m (WindowSizeMsg w h)) in
  snd (Update m (WindowSizeMsg w h)) = tea_Batch []
  /\ termWidth after = w /\ termHeight after = h
  /\ state after = state m
  /\ fonts after = fonts m
  /\ inputText after = inputText m
  /\ selectedFontMeta after = selectedFontMeta m
  /\ fullFigletOutput after = fullFigletOutput m
  /\ errorMessage after = errorMessage m
  /\ statusMessage after = statusMessage m
  /\ spinner after = spinner m
  /\ figletCmdPath after = figletCmdPath m.
Proof. unfold Update. split_branches; repeat split. Qed.

(** ** The confirmed text *)

(** X18.  The stored text stays trimmed: if [inputText] has no white
    space rune at its start or its end, it has none after any
    message. *)
Theorem inputText_stays_trimmed `{Bubbles} (m : model) (msg : Msg) :
  ~ startsWithSpace (inputText m) /\ ~ endsWithSpace (inputText m) ->
  ~ startsWithSpace (inputText (fst (Update m msg)))
  /\ ~ endsWithSpace (inputText (fst (Update m msg))).
Proof.
  intros Hm.
  assert (Ht : forall v,
             ~ startsWithSpace (strings.TrimSpace v)
             /\ ~ endsWithSpace (strings.TrimSpace v)).
  { intros v. destruct (TrimSpace_split v) as (_ & _ & _ & _ & _ & H1 & H2).
    now split. }
  destruct msg as [w h|id tag|fs|fs|out|path|err| |k|];
    try (unfold Update; split_branches; exact Hm).
  rewrite Update_key.
  destruct (key_Matches k ["ctrl+c"]); [exact Hm|].
  unfold UpdateKey.
  destruct (state m); split_branches; first [exact Hm | apply Ht].
Qed.

Lemma inputText_stays_trimmed_witness :
  ~ startsWithSpace
      (inputText (fst (Update (demoModel stateInputText " hi ")
                              (tea_KeyMsg (pressed KeyEnter)))))
  /\ ~ endsWithSpace
         (inputText (fst (Update (demoModel stateInputText " hi ")
                                 (tea_KeyMsg (pressed KeyEnter))))).
Proof.
  apply (@inputText_stays_trimmed plainBubbles). split.
  - intros (bytes & rest & Hb & Heq). apply isSpace_encoding in Hb.
    each_encoding Hb; discriminate Heq.
  - intros (rest & bytes & Hb & Heq). apply isSpace_encoding in Hb.
    each_encoding Hb; destruct rest; discriminate Heq.
Defined.

(** ** When tasks are issued *)

Ltac in_batch Hin :=
  let Hb := fresh "Hb" in
  intros Hb; cbn [snd] in Hb; try discriminate Hb;
  injection Hb as <-; cbn [app In] in Hin;
  repeat (destruct Hin as [Hin | Hin]);
  try discriminate Hin; try contradiction;
  try match type of Hin with
      | tea_Cmd_of ?w = _ => destruct w; discriminate Hin
      end.

(** X19.  The preview batch is issued on one occasion only: Enter on the
    InputText screen with a text that is not blank.  It is issued for
    the session as returned, which is on LoadingPreviews and holds the
    trimmed text and the fonts as they were. *)
Theorem previews_issued_only_on_confirmed_text `{Bubbles}
    (m : model) (msg : Msg) (cmds : list Cmd) (snapshot : model) :
  snd (Update m msg) = tea_Batch cmds ->
  In (cmd_generatePreviews snapshot) cmds ->
  state m = stateInputText
  /\ (exists k, msg = tea_KeyMsg k /\ Type_ k = KeyEnter)
  /\ snapshot = fst (Update m msg)
  /\ state snapshot = stateLoadingPreviews
  /\ inputText snapshot = strings.TrimSpace (textinput_Value (textInput m))
  /\ trimmedOf (textinput_Value (textInput m)) (inputText snapshot)
  /\ inputText snapshot <> ""
  /\ fonts snapshot = fonts m.
Proof.
  intros Hb Hin. revert Hb.
  destruct msg as [w h|id tag|fs|fs|out|path|err| |k|];
    try (unfold Update; split_branches; in_batch Hin).
  rewrite Update_key.
  destruct (key_Matches k ["ctrl+c"]) eqn:Hq; [discriminate|].
  unfold UpdateKey.
  destruct (state m) eqn:Hs; split_branches; in_batch Hin.
  injection Hin as <-.
  match goal with
  | E : KeyType_eqb (Type_ k) KeyEnter = true |- _ =>
      assert (Hk : Type_ k = KeyEnter) by (destruct (Type_ k); now try discriminate E)
  end.
  match goal with
  | E : negb (String.eqb _ "") = true |- _ =>
      apply negb_true_iff, String.eqb_neq in E; cbn in E
  end.
  split; [reflexivity|]. split; [eauto|].
  do 3 (split; [reflexivity|]).
  split; [apply TrimSpace_trimmedOf|].
  split; [assumption | reflexivity].
Qed.

Lemma previews_issued_only_on_confirmed_text_witness :
  state (demoModel stateInputText "hi") = stateInputText.
Proof.
  refine (proj1 (@previews_issued_only_on_confirmed_text plainBubbles
                   (demoModel stateInputText "hi")
                   (tea_KeyMsg (pressed KeyEnter)) _ _ eq_refl _)).
  right. left. reflexivity.
Defined.

Lemma KeyType_eqb_eq a b : KeyType_eqb a b = true -> a = b.
Proof. destruct a, b; simpl; congruence. Qed.

(** X20.  The full rendering is issued on one occasion only: Enter on the
    SelectFont screen while the list has a selected font.  It is issued
    for the path of that font and the confirmed text, and the session
    records the font and moves to GeneratingOutput. *)
Theorem full_render_issued_only_for_selected_font `{Bubbles}
    (m : model) (msg : Msg) (cmds : list Cmd)
    (snapshot : model) (fontPath text : string) :
  snd (Update m msg) = tea_Batch cmds ->
  In (cmd_renderFullFiglet snapshot fontPath text) cmds ->
  state m = stateSelectFontWithPreview
  /\ (exists k, msg = tea_KeyMsg k /\ Type_ k = KeyEnter)
  /\ (exists selected,
         list_SelectedItem (fontList m) = Some selected
         /\ fontPath = Path selected
         /\ selectedFontMeta (fst (Update m msg)) = selected)
  /\ text = inputText m
  /\ state (fst (Update m msg)) = stateGeneratingFullOutput
  /\ state snapshot = stateGeneratingFullOutput
  /\ fonts snapshot = fonts m.
Proof.
  intros Hb Hin. revert Hb.
  destruct msg as [w h|id tag|fs|fs|out|path|err| |k|];
    try (unfold Update; split_branches; in_batch Hin).
  rewrite Update_key.
  destruct (key_Matches k ["ctrl+c"]) eqn:Hq; [discriminate|].
  unfold UpdateKey.
  destruct (state m) eqn:Hs; split_branches; in_batch Hin.
  injection Hin as <- <- <-.
  match goal with
  | E : KeyType_eqb (Type_ k) KeyEnter = true |- _ =>
      apply KeyType_eqb_eq in E
  end.
  split; [reflexivity|]. split; [eauto|].
  split; [eexists; split; [reflexivity | split; reflexivity]|].
  repeat split.
Qed.

Lemma full_render_issued_only_for_selected_font_witness :
  state (set_fontList (demoModel stateSelectFontWithPreview "")
                      [demoFont "standard"])
  = stateSelectFontWithPreview.
Proof.
  refine (proj1 (@full_render_issued_only_for_selected_font plainBubbles
                   (set_fontList (demoModel stateSelectFontWithPreview "")
                                 [demoFont "standard"])
                   (tea_KeyMsg (pressed KeyEnter)) _ _ _ _ eq_refl _)).
  right. left. reflexivity.
Defined.

(** X21.  A save is issued on one occasion only: Enter on the SaveFilenameInput
    screen with a name that is not blank.  It writes the full output as
    the session holds it, under the trimmed name, and the screen does
    not change until the result arrives. *)
Theorem save_issued_only_on_confirmed_name `{Bubbles}
    (m : model) (msg : Msg) (cmds : list Cmd)
    (snapshot : model) (filename content : string) :
  snd (Update m msg) = tea_Batch cmds ->
  In (cmd_saveToFile snapshot filename content) cmds ->
  state m = stateSaveFileNameInput
  /\ (exists k, msg = tea_KeyMsg k /\ Type_ k = KeyEnter)
  /\ filename = strings.TrimSpace (textinput_Value (textInput m))
  /\ trimmedOf (textinput_Value (textInput m)) filename
  /\ filename <> ""
  /\ content = fullFigletOutput m
  /\ state (fst (Update m msg)) = stateSaveFileNameInput.
Proof.
  intros Hb Hin. revert Hb.
  destruct msg as [w h|id tag|fs|fs|out|path|err| |k|];
    try (unfold Update; split_branches; in_batch Hin).
  rewrite Update_key.
  destruct (key_Matches k ["ctrl+c"]) eqn:Hq; [discriminate|].
  unfold UpdateKey.
  destruct (state m) eqn:Hs; split_branches; in_batch Hin.
  injection Hin as <- <- <-.
  match goal with
  | E : KeyType_eqb (Type_ k) KeyEnter = true |- _ =>
      apply KeyType_eqb_eq in E
  end.
  match goal with
  | E : negb (String.eqb _ "") = true |- _ =>
      apply negb_true_iff, String.eqb_neq in E
  end.
  split; [reflexivity|]. split; [eauto|]. split; [reflexivity|].
  split; [apply TrimSpace_trimmedOf|].
  repeat split; first [reflexivity | assumption].
Qed.

Lemma save_issued_only_on_confirmed_name_witness :
  state (demoModel stateSaveFileNameInput "out.txt") = stateSaveFileNameInput.
Proof.
  refine (proj1 (@save_issued_only_on_confirmed_name plainBubbles
                   (demoModel stateSaveFileNameInput "out.txt")
                   (tea_KeyMsg (pressed KeyEnter)) _ _ _ _ eq_refl _)).
  left. reflexivity.
Defined.

(** ** Going back to the text and confirming it again *)

(** X22.  From SelectFont, [esc] returns to InputText with the confirmed
    text set into the input; if the input, so set, gives this text back,
    Enter then confirms the same text again and issues the preview batch
    for the same fonts. *)
Theorem escape_then_enter_reconfirms `{Bubbles} (m : model) :
  textinput_Value
    (textinput_Focus (textinput_SetValue (textInput m) (inputText m)))
  = inputText m ->
  state m = stateSelectFontWithPreview ->
  inputText m <> "" ->
  strings.TrimSpace (inputText m) = inputText m ->
  let back := Update m (tea_KeyMsg (pressed KeyEsc)) in
  let again := Update (fst back) (tea_KeyMsg (pressed KeyEnter)) in
  state (fst back) = stateInputText
  /\ textinput_Value (textInput (fst back)) = inputText m
  /\ snd back = Cmd_nil
  /\ state (fst again) = stateLoadingPreviews
  /\ inputText (fst again) = inputText m
  /\ fonts (fst again) = fonts m
  /\ snd again = tea_Batch [spinner_Tick (spinner m);
                            cmd_generatePreviews (fst again)].
Proof.
  intros Hlaw Hs Hne Htrim back again.
  assert (Hback : back
                  = (set_textInput
                       (set_textInput (set_state m stateInputText)
                          (textinput_SetValue (textInput m) (inputText m)))
                       (textinput_Focus
                          (textinput_SetValue (textInput m) (inputText m))),
                     Cmd_nil)).
  { unfold back. rewrite Update_key. unfold UpdateKey. rewrite Hs. reflexivity. }
  assert (Hvalue : textinput_Value (textInput (fst back)) = inputText m).
  { rewrite Hback. cbn. exact Hlaw. }
  assert (Hagain : again
                   = (let m2 := set_textInput
                                  (set_state
                                     (set_inputText (fst back) (inputText m))
                                     stateLoadingPreviews)
                                  (textinput_Blur (textInput (fst back))) in
                      (m2, tea_Batch [spinner_Tick (spinner m);
                                      cmd_generatePreviews m2]))).
  { unfold again. rewrite Update_key. unfold UpdateKey.
    replace (state (fst back)) with stateInputText by (now rewrite Hback).
    cbn [pressed Type_ KeyType_eqb key_Matches existsb KeyMsg_String Alt
         keyNames String.eqb Ascii.eqb Bool.eqb append orb].
    cbv zeta. cbn [inputText set_inputText]. rewrite Hvalue, Htrim.
    apply String.eqb_neq in Hne. rewrite Hne. cbn [negb].
    rewrite Hback. reflexivity. }
  split; [now rewrite Hback|]. split; [exact Hvalue|].
  split; [now rewrite Hback|].
  rewrite Hagain. cbv zeta. cbn [fst snd].
  split; [reflexivity|]. split; [reflexivity|].
  split; [now rewrite Hback | reflexivity].
Qed.

Lemma escape_then_enter_reconfirms_witness :
  state
    (fst (Update
            (fst (Update
                    (set_inputText (demoModel stateSelectFontWithPreview "")
                                   "hi")
                    (tea_KeyMsg (pressed KeyEsc))))
            (tea_KeyMsg (pressed KeyEnter))))
  = stateLoadingPreviews.
Proof.
  refine (proj1 (proj2 (proj2 (proj2
    (@escape_then_enter_reconfirms plainBubbles
       (set_inputText (demoModel stateSelectFontWithPreview "") "hi")
       eq_refl eq_refl _ eq_refl))))).
  discriminate.
Defined.

(** ** The list item delegate *)

Lemma Split_app_sep_list a b sep :
  strings.Split (a ++ String sep b) sep
  = strings.Split a sep ++ strings.Split b sep.
Proof.
  induction a as [|c rest IH]; simpl.
  - now rewrite Ascii.eqb_refl.
  - destruct (Ascii.eqb c sep); rewrite IH; [reflexivity|].
    pose proof (Split_not_nil rest sep).
    destruct (strings.Split rest sep); [congruence | reflexivity].
Qed.

Lemma lineCount_two_parts a b :
  lineCount (a ++ String LF b) = (lineCount a + lineCount b)%nat.
Proof. unfold lineCount. now rewrite Split_app_sep_list, length_app. Qed.

Lemma lineCount_Join_take s n :
  (lineCount (strings.Join (firstn n (strings.Split s LF)) (String LF ""))
   <= Nat.max 1 n)%nat.
Proof.
  destruct (firstn n (strings.Split s LF)) as [|l ls] eqn:Hf.
  - unfold lineCount. change (1 <= Nat.max 1 n)%nat. lia.
  - unfold lineCount. rewrite Split_Join.
    + rewrite <- Hf. pose proof (firstn_le_length n (strings.Split s LF)). lia.
    + discriminate.
    + rewrite <- Hf. apply Forall_take, Split_lines_free.
Qed.

Lemma Render_unfold `{DelegateStyles} d listIndex index item :
  0 <= PreviewLines d ->
  let styledName :=
    if index =? listIndex
    then SelectedTitle_Render (selectedMark ++ FontName_Render (Name item))
    else NormalTitle_Render ("  " ++ FontName_Render (Name item)) in
  let styledPreview :=
    if index =? listIndex
    then SelectedPreview_Render (PreviewRender item)
    else NormalPreview_Render (PreviewRender item) in
  itemDelegate_Render d listIndex index (Item_fontMetadata item)
  = Some (styledName ++ String LF
            (strings.Join
               (firstn (Z.to_nat (PreviewLines d))
                       (strings.Split styledPreview LF))
               (String LF "")))%string.
Proof.
  intros Hd styledName styledPreview.
  unfold itemDelegate_Render, styledName, styledPreview.
  destruct (index =? listIndex); cbv zeta;
    match goal with
    | |- context [strings.Split ?p LF] =>
        destruct (Z.of_nat (List.length (strings.Split p LF)) >? PreviewLines d)
                 eqn:E
    end;
    try (unfold sliceTo;
         replace (PreviewLines d <? 0) with false by (symmetry; apply Z.ltb_ge; lia);
         match goal with
         | |- context [?a <? PreviewLines d] =>
             replace (a <? PreviewLines d) with false
               by (symmetry; apply Z.ltb_ge; lia)
         end; reflexivity);
    rewrite firstn_all_ge by lia; reflexivity.
Qed.

(** X23.  An item is drawn without a panic when the delegate's line
    budget is not negative, and takes no more lines than its title and
    the budget (one line at least for the preview).  With a title of one
    line and a budget of at least one line, and less than 2^62, it stays
    below the height the delegate declares. *)
Theorem Render_stays_within_Height `{DelegateStyles}
    (d : itemDelegate) (listIndex index : Z) (item : fontMetadata) :
  0 <= PreviewLines d ->
  let styledName :=
    if index =? listIndex
    then SelectedTitle_Render (selectedMark ++ FontName_Render (Name item))
    else NormalTitle_Render ("  " ++ FontName_Render (Name item)) in
  exists out,
    itemDelegate_Render d listIndex index (Item_fontMetadata item) = Some out
    /\ (lineCount out
        <= lineCount styledName + Nat.max 1 (Z.to_nat (PreviewLines d)))%nat
    /\ (lineCount styledName = 1%nat ->
        1 <= PreviewLines d < 2 ^ 62 ->
        Z.of_nat (lineCount out) < itemDelegate_Height d).
Proof.
  intros Hd styledName.
  rewrite (Render_unfold d listIndex index item Hd). fold styledName.
  eexists. split; [reflexivity|].
  rewrite lineCount_two_parts.
  match goal with
  | |- context [strings.Join (firstn ?n (strings.Split ?p LF)) _] =>
      pose proof (lineCount_Join_take p n) as Hl
  end.
  split; [lia|].
  intros Hone Hrange. unfold itemDelegate_Height.
  rewrite !wrap_int_in_range; rewrite ?wrap_int_in_range; lia.
Qed.

Lemma Render_stays_within_Height_witness :
  0 <= PreviewLines newItemDelegate
  /\ exists out,
       @itemDelegate_Render plainStyles newItemDelegate 0 0
         (Item_fontMetadata (demoFont "standard")) = Some out
       /\ (lineCount out <= 12)%nat.
Proof.
  split; [vm_compute; discriminate|].
  destruct (@Render_stays_within_Height plainStyles newItemDelegate 0 0
              (demoFont "standard"))
    as (out & Hout & Hlines & _).
  - vm_compute. discriminate.
  - exists out. split; [exact Hout|].
    etransitivity; [exact Hlines|]. vm_compute. lia.
Defined.

(** X24.  A styled preview within the line budget is drawn whole, below its
    title. *)
Theorem Render_draws_short_preview_whole `{DelegateStyles}
    (d : itemDelegate) (listIndex index : Z) (item : fontMetadata) :
  let styledName :=
    if index =? listIndex
    then SelectedTitle_Render (selectedMark ++ FontName_Render (Name item))
    else NormalTitle_Render ("  " ++ FontName_Render (Name item)) in
  let styledPreview :=
    if index =? listIndex
    then SelectedPreview_Render (PreviewRender item)
    else NormalPreview_Render (PreviewRender item) in
  Z.of_nat (lineCount styledPreview) <= PreviewLines d ->
  itemDelegate_Render d listIndex index (Item_fontMetadata item)
  = Some (styledName ++ String LF styledPreview)%string.
Proof.
  intros styledName styledPreview Hlen.
  assert (Hd : 0 <= PreviewLines d) by lia.
  rewrite (Render_unfold d listIndex index item Hd).
  fold styledName styledPreview. unfold lineCount in Hlen.
  now rewrite firstn_all_ge, Join_Split by lia.
Qed.

Lemma Render_draws_short_preview_whole_witness :
  @itemDelegate_Render plainStyles newItemDelegate 0 1
    (Item_fontMetadata
       {| Name := "standard"; Path := "/usr/share/figlet/standard.flf";
          PreviewRender := "hi" |})
  = Some ("  standard" ++ String LF "hi")%string.
Proof.
  apply (@Render_draws_short_preview_whole plainStyles newItemDelegate 0 1
           {| Name := "standard"; Path := "/usr/share/figlet/standard.flf";
              PreviewRender := "hi" |}).
  vm_compute. discriminate.
Defined.

(** ** Results of tasks, and the choice of output *)

(** X25.  The screen that a task result or the timeout leads to depends on the
    message alone, not on the screen the session is on when it arrives:
    no result is ever held back or dropped. *)
Theorem task_results_ignore_the_screen `{Bubbles} (m m' : model) (msg : Msg) :
  isTaskResult msg = true ->
  state (fst (Update m msg)) = state (fst (Update m' msg))
  /\ state (fst (Update m msg))
     = match msg with
       | initialResourcesLoadedMsg _ => stateInputText
       | previewsGeneratedMsg _ => stateSelectFontWithPreview
       | fullFigletRenderedMsg _ => stateOutputChoice
       | fileSavedMsg _ => stateShowStatusMessage
       | errorMsg _ => stateError
       | _ => stateSelectFontWithPreview
       end.
Proof. destruct msg; try discriminate; intros _; split; reflexivity. Qed.

Lemma task_results_ignore_the_screen_witness :
  state (fst (Update (demoModel stateInputText "typing") statusTimeoutMsg))
  = state (fst (Update savedModel statusTimeoutMsg)).
Proof.
  apply (@task_results_ignore_the_screen plainBubbles
           (demoModel stateInputText "typing") savedModel statusTimeoutMsg).
  reflexivity.
Defined.

(** X26.  On the OutputChoice screen the case of the key does not matter: two
    keys that read the same in lower case, neither of them [ctrl+c],
    have the same effect. *)
Theorem output_choice_ignores_case `{Bubbles} (m : model) (k1 k2 : KeyMsg) :
  state m = stateOutputChoice ->
  key_Matches k1 ["ctrl+c"] = false ->
  key_Matches k2 ["ctrl+c"] = false ->
  strings.ToLower (KeyMsg_String k1) = strings.ToLower (KeyMsg_String k2) ->
  Update m (tea_KeyMsg k1) = Update m (tea_KeyMsg k2).
Proof.
  intros Hs H1 H2 Hsame. rewrite !Update_key, H1, H2.
  unfold UpdateKey. rewrite Hs. cbv zeta. now rewrite Hsame.
Qed.

Lemma output_choice_ignores_case_witness :
  Update (demoModel stateOutputChoice "") (tea_KeyMsg (typed "T"))
  = Update (demoModel stateOutputChoice "") (tea_KeyMsg (typed "t")).
Proof.
  apply (@output_choice_ignores_case plainBubbles); reflexivity.
Defined.
